(** * js-textile: request context and mailbox API

    A shallow embedding of the [Context] class (package [context]) and of the
    mailbox functions of [packages/users/src/api/index.ts].

    JS objects are mutable and shared by reference, so the [Context] part is
    modelled over an explicit store: a [Context] instance is a store cell
    holding the reference kept in its private [_context] field, and the key
    sets themselves are store objects mapping property names to values.  A
    key set is a plain object: it answers the keys of [Object.prototype] it
    does not own, and an assignment to ["__proto__"] writes no property. *)

From Stdlib Require Import ZArith Strings.Byte Strings.Ascii.
From stdpp Require Import gmap strings list fin_maps.

Local Open Scope Z_scope.
Local Open Scope string_scope.

(** ** External collaborators

    [ThreadID] comes from [@textile/threads-id] and [Buffer] from the
    platform; only their signatures are used here. *)

Inductive Error : Type :=
  | TransportError (msg : string)
  | DecodeError (msg : string)
  | TypeError (msg : string).

Class ThreadIDLib : Type := {
  ThreadID : Type;
  (* ThreadID.fromBytes throws on bytes that are not an identifier *)
  ThreadID_fromBytes : list byte -> Error + ThreadID;
  (* ThreadID.fromString throws on a string that is not an identifier *)
  ThreadID_fromString : string -> Error + ThreadID;
  (* ThreadID.prototype.toString *)
  ThreadID_toString : ThreadID -> string
}.

Class BufferLib : Type := {
  (* Buffer.from(s, 'base64') *)
  Buffer_from_base64 : string -> list byte
}.

(** ** JS values *)

(** A JS [number], as far as this code can tell numbers apart: the
    integral values and [NaN]. *)
Inductive number : Type :=
  | NaN
  | Num (z : Z).

#[global] Instance number_eq_dec : EqDecision number.
Proof. solve_decision. Defined.

Inductive TransportFactory : Type :=
  | WebsocketTransport
  | CustomTransport (tag : nat).

(** What a context key can hold ([any]).  [VUndefined] is a value like the
    others: a property may be present and hold it.  The last two are what a
    plain object answers for keys it inherits: [Object.prototype] itself
    (under ["__proto__"]) and the functions [Object.prototype] holds. *)
Inductive Value : Type :=
  | VUndefined
  | VString (s : string)
  | VBoolean (b : bool)
  | VNumber (n : number)
  | VTransport (t : TransportFactory)
  | VPrototype
  | VBuiltin (name : string).

#[global] Instance TransportFactory_eq_dec : EqDecision TransportFactory.
Proof. solve_decision. Defined.

#[global] Instance Value_eq_dec : EqDecision Value.
Proof. solve_decision. Defined.

(** ** Plain objects

    A key set is a plain object: it owns the properties written to it and
    inherits the rest from [Object.prototype]. *)

(** The string keys [Object.prototype] holds a function under. *)
Definition Object_prototype_keys : list string :=
  ["constructor"; "hasOwnProperty"; "isPrototypeOf"; "propertyIsEnumerable";
   "toLocaleString"; "toString"; "valueOf";
   "__defineGetter__"; "__defineSetter__"; "__lookupGetter__"; "__lookupSetter__"].

(** [o[k]] for a key [o] does not own: ["__proto__"] is an accessor giving
    the prototype, the other keys of [Object.prototype] give its functions,
    anything else is [undefined]. *)
Definition inherited (k : string) : Value :=
  if decide (k = "__proto__") then VPrototype
  else if decide (k ∈ Object_prototype_keys) then VBuiltin k
  else VUndefined.

(** [o[k]]: the own property first. *)
Definition property (m : gmap string Value) (k : string) : Value :=
  match m !! k with
  | Some v => v
  | None => inherited k
  end.

(** Whether [o.__proto__ = v], run by the inherited setter, gives [o]
    another prototype: a value that is no object is ignored, and
    [Object.prototype] is the prototype [o] has. *)
Definition replaces_prototype (v : Value) : bool :=
  match v with
  | VTransport _ | VBuiltin _ => true
  | VUndefined | VString _ | VBoolean _ | VNumber _ | VPrototype => false
  end.

(** ** The store *)

Record Store : Type := mkStore {
  objects : gmap positive (gmap string Value);  (* plain objects used as key sets *)
  contexts : gmap positive positive;            (* Context instances: their [_context] field *)
  exotic : gmap positive (Value * gmap string Value)
    (* objects given another prototype: that prototype and their own properties *)
}.

Definition empty_store : Store := mkStore ∅ ∅ ∅.

(** Every [_context] field points to a live object. *)
Definition wf (σ : Store) : Prop :=
  ∀ c l, contexts σ !! c = Some l → is_Some (objects σ !! l).

(** State passing.  [None] is the absence of a modelled outcome: for a
    reference that does not exist, which JS cannot produce (see [wf]), and
    for an access that goes through a prototype other than
    [Object.prototype], whose outcome is that prototype's business. *)
Definition M (A : Type) : Type := Store → option (A * Store).

Definition ret {A} (a : A) : M A := λ σ, Some (a, σ).

Definition bind {A B} (m : M A) (k : A → M B) : M B :=
  λ σ, match m σ with
       | Some (a, σ') => k a σ'
       | None => None
       end.

Declare Scope js_scope.
Delimit Scope js_scope with js.
Notation "'let!' x ':=' m 'in' k" := (bind m (λ x, k))
  (at level 10, x name, m at level 100, k at level 200) : js_scope.
Notation "m ';;' k" := (bind m (λ _, k))
  (at level 100, k at level 200, right associativity) : js_scope.

Local Open Scope js_scope.

(** [{ ...m }]: a fresh object. *)
Definition alloc_object (m : gmap string Value) : M positive :=
  λ σ, let l := fresh (dom (objects σ) ∪ dom (exotic σ)) in
       Some (l, mkStore (<[l := m]> (objects σ)) (contexts σ) (exotic σ)).

(** A fresh [Context] instance whose [_context] is [l]. *)
Definition alloc_context (l : positive) : M positive :=
  λ σ, let c := fresh (dom (contexts σ)) in
       Some (c, mkStore (objects σ) (<[c := l]> (contexts σ)) (exotic σ)).

(** [this._context] *)
Definition read_context (c : positive) : M positive :=
  λ σ, match contexts σ !! c with
       | Some l => Some (l, σ)
       | None => None
       end.

(** [this._context = l] *)
Definition assign_context (c l : positive) : M unit :=
  λ σ, match contexts σ !! c with
       | Some _ => Some (tt, mkStore (objects σ) (<[c := l]> (contexts σ)) (exotic σ))
       | None => None
       end.

(** [o[k] = v].  An own property is overwritten.  Otherwise, on a plain
    object, ["__proto__"] reaches the setter of [Object.prototype], which
    writes no property and at most changes the prototype, and any other key
    becomes an own property.  Under another prototype a key the object does
    not own is that prototype's business. *)
Definition put (l : positive) (k : string) (v : Value) : M unit :=
  λ σ, match objects σ !! l with
       | Some m =>
           match m !! k with
           | None =>
               if decide (k = "__proto__") then
                 if replaces_prototype v
                 then Some (tt, mkStore (delete l (objects σ)) (contexts σ)
                                  (<[l := (v, m)]> (exotic σ)))
                 else Some (tt, σ)
               else Some (tt, mkStore (<[l := <[k := v]> m]> (objects σ)) (contexts σ)
                                (exotic σ))
           | Some _ =>
               Some (tt, mkStore (<[l := <[k := v]> m]> (objects σ)) (contexts σ) (exotic σ))
           end
       | None =>
           match exotic σ !! l with
           | Some (p, m) =>
               match m !! k with
               | Some _ =>
                   Some (tt, mkStore (objects σ) (contexts σ)
                               (<[l := (p, <[k := v]> m)]> (exotic σ)))
               | None => None
               end
           | None => None
           end
       end.

(** [o[k]]: the own property, else what the prototype answers. *)
Definition read (l : positive) (k : string) : M Value :=
  λ σ, match objects σ !! l with
       | Some m => Some (property m k, σ)
       | None =>
           match exotic σ !! l with
           | Some (p, m) =>
               match m !! k with
               | Some v => Some (v, σ)
               | None => None
               end
           | None => None
           end
       end.

(** [this._context[k] = v] *)
Definition put_key (c : positive) (k : string) (v : Value) : M unit :=
  let! l := read_context c in
  put l k v.

(** ** The Context class *)

Module Context.

Definition defaultHost : string := "https://api.textile.io:3447".

(** What a method hands back: [this], or nothing at all. *)
Inductive Returned : Type :=
  | This (c : positive)
  | Undefined.

Record APISig : Type := mkAPISig { sig : string; msg : string }.

(** [new Context(host, transport, debug)], absent arguments taking their
    defaults. *)
Definition new (host : option string) (transport : option TransportFactory)
    (debug : option bool) : M positive :=
  let! l := alloc_object ∅ in
  let! c := alloc_context l in
  put_key c "host" (VString (default defaultHost host));;
  put_key c "transport" (VTransport (default WebsocketTransport transport));;
  put_key c "debug" (VBoolean (default false debug));;
  ret c.

Definition set (c : positive) (key : string) (value : Value) : M Returned :=
  put_key c key value;;
  ret (This c).

Definition get (c : positive) (key : string) : M Value :=
  let! l := read_context c in
  read l key.

Definition host (c : positive) : M Value := get c "host".
Definition transport (c : positive) : M Value := get c "transport".
Definition debug (c : positive) : M Value := get c "debug".

Definition withSession (c : positive) (value : option string) : M Returned :=
  match value with
  | None => ret (This c)
  | Some v =>
      put_key c "x-textile-session" (VString v);;
      ret (This c)
  end.

Definition withThread `{ThreadIDLib} (c : positive) (value : option ThreadID) : M Returned :=
  match value with
  | None => ret (This c)
  | Some v =>
      put_key c "x-textile-thread" (VString (ThreadID_toString v));;
      ret (This c)
  end.

Definition withThreadName (c : positive) (value : option string) : M Returned :=
  match value with
  | None => ret (This c)
  | Some v =>
      put_key c "x-textile-thread-name" (VString v);;
      ret (This c)
  end.

Definition withOrg (c : positive) (value : option string) : M Returned :=
  match value with
  | None => ret (This c)
  | Some v =>
      put_key c "x-textile-org" (VString v);;
      ret (This c)
  end.

Definition withToken (c : positive) (value : option string) : M Returned :=
  match value with
  | None => ret (This c)
  | Some v =>
      put_key c "authorization" (VString ("bearer " ++ v));;
      ret (This c)
  end.

(** The last statement is a bare [return]. *)
Definition withAPIKey (c : positive) (value : option string) : M Returned :=
  match value with
  | None => ret (This c)
  | Some v =>
      put_key c "x-textile-api-key" (VString v);;
      ret Undefined
  end.

Definition withAPISig (c : positive) (value : option APISig) : M Returned :=
  match value with
  | None => ret (This c)
  | Some v =>
      put_key c "x-textile-api-sig-msg" (VString (msg v));;
      put_key c "x-textile-api-sig" (VString (sig v));;
      ret (This c)
  end.

(** [this._context = value._context]: the reference is copied, not the
    object. *)
Definition withContext (c : positive) (value : option positive) : M Returned :=
  match value with
  | None => ret (This c)
  | Some other =>
      let! l := read_context other in
      assign_context c l;;
      ret (This c)
  end.

(** Hands out the key set itself. *)
Definition toJSON (c : positive) : M positive := read_context c.

Definition fromJSON (json : positive) : M positive :=
  let! ctx := new None None None in
  assign_context ctx json;;
  ret ctx.

End Context.

(** ** Truthiness of the option fields tested by the list functions *)

Definition truthy_string (s : string) : bool :=
  match s with
  | EmptyString => false
  | String _ _ => true
  end.

Definition truthy_number (n : number) : bool :=
  match n with
  | NaN => false
  | Num z => negb (Z.eqb z 0)
  end.

Definition truthy_boolean (b : bool) : bool := b.

(** [if (opts && opts.f) req.setF(opts.f)]: [field] is [opts.f] when [opts]
    is there, and an absent [opts] or [opts.f] is [undefined], hence falsy. *)
Definition set_if_truthy {O A R} (truthy : A → bool) (opts : option O)
    (field : O → option A) (setter : A → R → R) (req : R) : R :=
  match opts with
  | Some o =>
      match field o with
      | Some v => if truthy v then setter v req else req
      | None => req
      end
  | None => req
  end.

(** ** Promises *)

Inductive Promise (A : Type) : Type :=
  | Resolved (a : A)
  | Rejected (e : Error).
Arguments Resolved {A} a.
Arguments Rejected {A} e.

(** [await p; k] inside an [async] function. *)
Definition await {A B} (p : Promise A) (k : A → Promise B) : Promise B :=
  match p with
  | Resolved a => k a
  | Rejected e => Rejected e
  end.

(** A call that may throw, inside an [async] function. *)
Definition try {A B} (r : Error + A) (k : A → Promise B) : Promise B :=
  match r with
  | inr a => k a
  | inl e => Rejected e
  end.

(** ** Messages of [@textile/users-grpc]

    A request records which setters ran and with what; [None] is a field no
    setter touched. *)

Module ListThreadsRequest.
Record t : Type := mk { }.
Definition new : t := mk.
End ListThreadsRequest.

(** Modelled from the spec: the [toObject()] view of [GetThreadReply],
    declared in [@textile/users-grpc]; [id] is the base64 text of the bytes. *)
Module GetThreadReply.
Record t : Type := mk { isdb : bool; name : string; id : string }.
End GetThreadReply.

Module ListThreadsReply.
Record t : Type := mk { getListList : list GetThreadReply.t }.
End ListThreadsReply.

Module GetThreadRequest.
Record t : Type := mk { name : option string }.
Definition new : t := mk None.
Definition setName (v : string) (r : t) : t := mk (Some v).
End GetThreadRequest.

Module SetupMailboxRequest.
Record t : Type := mk { }.
Definition new : t := mk.
End SetupMailboxRequest.

(** Modelled from the spec: [SetupMailboxReply] of [@textile/users-grpc],
    whose identifier is read as base64 text. *)
Module SetupMailboxReply.
Record t : Type := mk { getMailboxid_asB64 : string }.
End SetupMailboxReply.

Module SendMessageRequest.
Record t : Type := mk {
  to : option string;
  tobody : option (list byte);
  tosignature : option (list byte);
  frombody : option (list byte);
  fromsignature : option (list byte)
}.
Definition new : t := mk None None None None None.
Definition setTo (v : string) (r : t) : t :=
  mk (Some v) (tobody r) (tosignature r) (frombody r) (fromsignature r).
Definition setTobody (v : list byte) (r : t) : t :=
  mk (to r) (Some v) (tosignature r) (frombody r) (fromsignature r).
Definition setTosignature (v : list byte) (r : t) : t :=
  mk (to r) (tobody r) (Some v) (frombody r) (fromsignature r).
Definition setFrombody (v : list byte) (r : t) : t :=
  mk (to r) (tobody r) (tosignature r) (Some v) (fromsignature r).
Definition setFromsignature (v : list byte) (r : t) : t :=
  mk (to r) (tobody r) (tosignature r) (frombody r) (Some v).
End SendMessageRequest.

(** Modelled from the spec: [SendMessageReply] of [@textile/users-grpc],
    which supplies the new identifier and the creation time. *)
Module SendMessageReply.
Record t : Type := mk { getId : string; getCreatedat : number }.
End SendMessageReply.

(** The status query filter of an inbox message. *)
Inductive Status : Type := ALL | READ | UNREAD.

(** The number a member of the enum is at run time. *)
Definition Status_value (s : Status) : number :=
  match s with
  | ALL => Num 0
  | READ => Num 1
  | UNREAD => Num 2
  end.

Definition truthy_Status (s : Status) : bool := truthy_number (Status_value s).

Module ListInboxMessagesRequest.
Record t : Type := mk {
  seek : option string;
  limit : option number;
  ascending : option bool;
  status : option Status
}.
Definition new : t := mk None None None None.
Definition setSeek (v : string) (r : t) : t := mk (Some v) (limit r) (ascending r) (status r).
Definition setLimit (v : number) (r : t) : t := mk (seek r) (Some v) (ascending r) (status r).
Definition setAscending (v : bool) (r : t) : t := mk (seek r) (limit r) (Some v) (status r).
Definition setStatus (v : Status) (r : t) : t := mk (seek r) (limit r) (ascending r) (Some v).
End ListInboxMessagesRequest.

Module ListSentboxMessagesRequest.
Record t : Type := mk {
  seek : option string;
  limit : option number;
  ascending : option bool
}.
Definition new : t := mk None None None.
Definition setSeek (v : string) (r : t) : t := mk (Some v) (limit r) (ascending r).
Definition setLimit (v : number) (r : t) : t := mk (seek r) (Some v) (ascending r).
Definition setAscending (v : bool) (r : t) : t := mk (seek r) (limit r) (Some v).
End ListSentboxMessagesRequest.

(** Modelled from the spec: [Message] of [@textile/users-grpc], read through
    its getters. *)
Module Message.
Record t : Type := mk {
  getId : string;
  getFrom : string;
  getTo : string;
  getBody_asU8 : list byte;
  getSignature_asU8 : list byte;
  getCreatedat : number;
  getReadat : number
}.
End Message.

Module ListMessagesReply.
Record t : Type := mk { getMessagesList : list Message.t }.
End ListMessagesReply.

Module ReadInboxMessageRequest.
Record t : Type := mk { id : option string }.
Definition new : t := mk None.
Definition setId (v : string) (r : t) : t := mk (Some v).
End ReadInboxMessageRequest.

Module ReadInboxMessageReply.
Record t : Type := mk { readat : number }.
End ReadInboxMessageReply.

Module DeleteMessageRequest.
Record t : Type := mk { id : option string }.
Definition new : t := mk None.
Definition setId (v : string) (r : t) : t := mk (Some v).
End DeleteMessageRequest.

Module DeleteMessageReply.
Record t : Type := mk { }.
End DeleteMessageReply.

(** The unary methods of the service, each typed by its request and reply. *)
Inductive API : Type → Type → Type :=
  | ListThreads : API ListThreadsRequest.t ListThreadsReply.t
  | GetThread : API GetThreadRequest.t GetThreadReply.t
  | SetupMailbox : API SetupMailboxRequest.t SetupMailboxReply.t
  | SendMessage : API SendMessageRequest.t SendMessageReply.t
  | ListInboxMessages : API ListInboxMessagesRequest.t ListMessagesReply.t
  | ListSentboxMessages : API ListSentboxMessagesRequest.t ListMessagesReply.t
  | ReadInboxMessage : API ReadInboxMessageRequest.t ReadInboxMessageReply.t
  | DeleteInboxMessage : API DeleteMessageRequest.t DeleteMessageReply.t
  | DeleteSentboxMessage : API DeleteMessageRequest.t DeleteMessageReply.t.

(** Modelled from the spec: the connection of [@textile/grpc-connection],
    which performs one call given a method, a request and an optional
    context, and returns a typed reply or fails. *)
Record GrpcConnection : Type := mkGrpcConnection {
  unary : ∀ {R T : Type}, API R T → R → option positive → Promise T;
  context : positive
}.


(** ** The mailbox API ([packages/users/src/api/index.ts]) *)

Module MailConfig.
Definition ThreadName : string := "hubmail".
Definition InboxCollectionName : string := "inbox".
Definition SentboxCollectionName : string := "sentbox".
End MailConfig.

Module SentboxListOptions.
Record t : Type := mk {
  seek : option string;
  limit : option number;
  ascending : option bool
}.
End SentboxListOptions.

Module InboxListOptions.
Record t : Type := mk {
  seek : option string;
  limit : option number;
  ascending : option bool;
  status : option Status
}.
End InboxListOptions.

Module GetThreadReplyObj.
Record t : Type := mk { isDB : bool; name : string; id : string }.
End GetThreadReplyObj.

Module UserMessage.
Record t : Type := mk {
  id : string;
  to : string;
  from : string;
  body : list byte;
  signature : list byte;
  createdAt : number;
  readAt : option number
}.
End UserMessage.

Inductive MailboxEventType : Type := CREATE | SAVE | DELETE.

(** The number a member of the enum is at run time. *)
Definition MailboxEventType_value (t : MailboxEventType) : Z :=
  match t with
  | CREATE => 0
  | SAVE => 1
  | DELETE => 2
  end.

(** The member a number stands for, if any. *)
Definition MailboxEventType_of (n : Z) : option MailboxEventType :=
  if Z.eqb n 0 then Some CREATE
  else if Z.eqb n 1 then Some SAVE
  else if Z.eqb n 2 then Some DELETE
  else None.

(** [type] holds whatever number was stored: a numeric enum is not checked
    at run time. *)
Module MailboxEvent.
Record t : Type := mk {
  type : Z;
  messageID : string;
  message : option UserMessage.t
}.
End MailboxEvent.

Module IntermediateMessage.
Record t : Type := mk {
  _id : string;
  from : string;
  to : string;
  body : string;
  signature : string;
  created_at : number;
  read_at : number
}.
End IntermediateMessage.

(** Modelled from the spec: [Update] of [@textile/hub-threads-client], one
    notification of the change feed: the action tag (a number at run time),
    the identifier of the affected instance and, unless the feed sent none,
    the instance payload. *)
Module Update.
Record t (T : Type) : Type := mk {
  collectionName : string;
  instanceID : string;
  action : Z;
  instance : option T
}.
Arguments mk {T}.
Arguments collectionName {T}.
Arguments instanceID {T}.
Arguments action {T}.
Arguments instance {T}.
End Update.

Inductive Box : Type := inbox | sentbox.

(** Running the listener's function either throws or calls the callback. *)
Inductive Outcome : Type :=
  | Throws (e : Error)
  | Calls (reply : option MailboxEvent.t) (err : option Error).

(** Modelled from the spec: what [client.listen] is handed, the thread, the
    collection filters and the function run on every notification, together
    with the context the client was made with. *)
Record Listen `{ThreadIDLib} : Type := mkListen {
  listen_context : positive;
  listen_thread : ThreadID;
  listen_filters : list string;
  listen_handler : option (Update.t IntermediateMessage.t) → option Error → Outcome
}.

Section Users.
Context `{TL : ThreadIDLib} `{BL : BufferLib}.

Definition convertMessageObj (input : Message.t) : UserMessage.t :=
  {| UserMessage.body := Message.getBody_asU8 input;
     UserMessage.signature := Message.getSignature_asU8 input;
     UserMessage.from := Message.getFrom input;
     UserMessage.id := Message.getId input;
     UserMessage.to := Message.getTo input;
     UserMessage.createdAt := Message.getCreatedat input;
     UserMessage.readAt := Some (Message.getReadat input) |}.

(** [ThreadID.fromBytes(Buffer.from(b64, 'base64')).toString()] *)
Definition decodeThreadID (b64 : string) : Error + string :=
  match ThreadID_fromBytes (Buffer_from_base64 b64) with
  | inr tid => inr (ThreadID_toString tid)
  | inl e => inl e
  end.

(** The callback given to [map] throws at the first bad element. *)
Fixpoint mapThreads (l : list GetThreadReply.t) : Error + list GetThreadReplyObj.t :=
  match l with
  | [] => inr []
  | thread :: rest =>
      match decodeThreadID (GetThreadReply.id thread) with
      | inl e => inl e
      | inr id =>
          match mapThreads rest with
          | inl e => inl e
          | inr objs =>
              inr (GetThreadReplyObj.mk (GetThreadReply.isdb thread)
                     (GetThreadReply.name thread) id :: objs)
          end
      end
  end.

Definition listThreads (api : GrpcConnection) (ctx : option positive)
    : Promise (list GetThreadReplyObj.t) :=
  let req := ListThreadsRequest.new in
  await (unary api ListThreads req ctx) (λ res,
  try (mapThreads (ListThreadsReply.getListList res)) (λ objs,
  Resolved objs)).

Definition getThread (api : GrpcConnection) (name : string) (ctx : option positive)
    : Promise GetThreadReplyObj.t :=
  let req := GetThreadRequest.new in
  let req := GetThreadRequest.setName name req in
  await (unary api GetThread req ctx) (λ thread,
  try (decodeThreadID (GetThreadReply.id thread)) (λ id,
  Resolved (GetThreadReplyObj.mk (GetThreadReply.isdb thread)
              (GetThreadReply.name thread) id))).

Definition setupMailbox (api : GrpcConnection) (ctx : option positive) : Promise string :=
  let req := SetupMailboxRequest.new in
  await (unary api SetupMailbox req ctx) (λ res,
  try (decodeThreadID (SetupMailboxReply.getMailboxid_asB64 res)) (λ mailboxID,
  Resolved mailboxID)).

Definition getMailboxID (api : GrpcConnection) (ctx : option positive) : Promise string :=
  await (getThread api MailConfig.ThreadName ctx) (λ thread,
  Resolved (GetThreadReplyObj.id thread)).

(** The request [sendMessage] submits. *)
Definition sendMessageRequest (to : string) (toBody toSignature fromBody fromSignature : list byte)
    : SendMessageRequest.t :=
  let req := SendMessageRequest.new in
  let req := SendMessageRequest.setTo to req in
  let req := SendMessageRequest.setTobody toBody req in
  let req := SendMessageRequest.setTosignature toSignature req in
  let req := SendMessageRequest.setFrombody fromBody req in
  let req := SendMessageRequest.setFromsignature fromSignature req in
  req.

Definition sendMessage (api : GrpcConnection) (from to : string)
    (toBody toSignature fromBody fromSignature : list byte) (ctx : option positive)
    : Promise UserMessage.t :=
  let req := sendMessageRequest to toBody toSignature fromBody fromSignature in
  await (unary api SendMessage req ctx) (λ res,
  Resolved {| UserMessage.id := SendMessageReply.getId res;
              UserMessage.createdAt := SendMessageReply.getCreatedat res;
              UserMessage.body := fromBody;
              UserMessage.signature := fromSignature;
              UserMessage.to := to;
              UserMessage.from := from;
              UserMessage.readAt := None |}).

(** The request [listInboxMessages] submits. *)
Definition listInboxMessagesRequest (opts : option InboxListOptions.t)
    : ListInboxMessagesRequest.t :=
  let req := ListInboxMessagesRequest.new in
  let req := set_if_truthy truthy_string opts InboxListOptions.seek
               ListInboxMessagesRequest.setSeek req in
  let req := set_if_truthy truthy_number opts InboxListOptions.limit
               ListInboxMessagesRequest.setLimit req in
  let req := set_if_truthy truthy_boolean opts InboxListOptions.ascending
               ListInboxMessagesRequest.setAscending req in
  let req := set_if_truthy truthy_Status opts InboxListOptions.status
               ListInboxMessagesRequest.setStatus req in
  req.

Definition listInboxMessages (api : GrpcConnection) (opts : option InboxListOptions.t)
    (ctx : option positive) : Promise (list UserMessage.t) :=
  let req := listInboxMessagesRequest opts in
  await (unary api ListInboxMessages req ctx) (λ res,
  Resolved (map convertMessageObj (ListMessagesReply.getMessagesList res))).

(** The request [listSentboxMessages] submits. *)
Definition listSentboxMessagesRequest (opts : option SentboxListOptions.t)
    : ListSentboxMessagesRequest.t :=
  let req := ListSentboxMessagesRequest.new in
  let req := set_if_truthy truthy_string opts SentboxListOptions.seek
               ListSentboxMessagesRequest.setSeek req in
  let req := set_if_truthy truthy_number opts SentboxListOptions.limit
               ListSentboxMessagesRequest.setLimit req in
  let req := set_if_truthy truthy_boolean opts SentboxListOptions.ascending
               ListSentboxMessagesRequest.setAscending req in
  req.

Definition listSentboxMessages (api : GrpcConnection) (opts : option SentboxListOptions.t)
    (ctx : option positive) : Promise (list UserMessage.t) :=
  let req := listSentboxMessagesRequest opts in
  await (unary api ListSentboxMessages req ctx) (λ res,
  Resolved (map convertMessageObj (ListMessagesReply.getMessagesList res))).




(** The function [watchMailbox] runs on every notification; [callback] is
    the caller's, so what is recorded is the call made to it. *)
Definition retype (reply : option (Update.t IntermediateMessage.t)) (err : option Error)
    : Outcome :=
  match reply with
  | None => Calls None err
  | Some reply =>
      let type := Update.action reply in
      let result := MailboxEvent.mk type (Update.instanceID reply) None in
      let result :=
        match Update.instance reply with
        | Some instance =>
            MailboxEvent.mk (MailboxEvent.type result) (MailboxEvent.messageID result)
              (Some {| UserMessage.id := Update.instanceID reply;
                       UserMessage.from := IntermediateMessage.from instance;
                       UserMessage.to := IntermediateMessage.to instance;
                       UserMessage.body :=
                         Buffer_from_base64 (IntermediateMessage.body instance);
                       UserMessage.signature :=
                         Buffer_from_base64 (IntermediateMessage.signature instance);
                       UserMessage.createdAt := IntermediateMessage.created_at instance;
                       UserMessage.readAt := Some (IntermediateMessage.read_at instance) |})
        | None => result
        end in
      Calls (Some result) None
  end.

Definition watchMailbox (api : GrpcConnection) (id : string) (box : Box)
    (ctx : option positive) : Error + Listen :=
  match ThreadID_fromString id with
  | inl e => inl e
  | inr threadID =>
      let collectionName :=
        match box with
        | inbox => MailConfig.InboxCollectionName
        | sentbox => MailConfig.SentboxCollectionName
        end in
      inr (mkListen _ (default (context api) ctx) threadID [collectionName] retype)
  end.

End Users.

(** ** Sequences of fluent calls on one receiver *)

Section Calls.
Context `{TL : ThreadIDLib}.

(** One call of a single-key fluent mutator, with its argument. *)
Inductive Call : Type :=
  | call_withSession (value : option string)
  | call_withThread (value : option ThreadID)
  | call_withThreadName (value : option string)
  | call_withOrg (value : option string)
  | call_withToken (value : option string)
  | call_withAPIKey (value : option string)
  | call_withAPISig (value : option Context.APISig).

Definition invoke (c : positive) (call : Call) : M Context.Returned :=
  match call with
  | call_withSession v => Context.withSession c v
  | call_withThread v => Context.withThread c v
  | call_withThreadName v => Context.withThreadName c v
  | call_withOrg v => Context.withOrg c v
  | call_withToken v => Context.withToken c v
  | call_withAPIKey v => Context.withAPIKey c v
  | call_withAPISig v => Context.withAPISig c v
  end.

(** [c.f1(v1); c.f2(v2); ...]: statements on the same receiver. *)
Fixpoint invoke_all (c : positive) (calls : list Call) : M unit :=
  match calls with
  | [] => ret tt
  | call :: rest => invoke c call;; invoke_all c rest
  end.

Definition argument_undefined (call : Call) : bool :=
  match call with
  | call_withSession None | call_withThread None | call_withThreadName None
  | call_withOrg None | call_withToken None | call_withAPIKey None
  | call_withAPISig None => true
  | _ => false
  end.

(** The specification's reading of a call: the recognized keys a call with a
    defined argument sets, with the values stored under them. *)
Definition spec_sets (call : Call) : list (string * Value) :=
  match call with
  | call_withSession (Some v) => [("x-textile-session", VString v)]
  | call_withThread (Some v) => [("x-textile-thread", VString (ThreadID_toString v))]
  | call_withThreadName (Some v) => [("x-textile-thread-name", VString v)]
  | call_withOrg (Some v) => [("x-textile-org", VString v)]
  | call_withToken (Some v) => [("authorization", VString ("bearer " ++ v))]
  | call_withAPIKey (Some v) => [("x-textile-api-key", VString v)]
  | call_withAPISig (Some v) =>
      [("x-textile-api-sig-msg", VString (Context.msg v));
       ("x-textile-api-sig", VString (Context.sig v))]
  | _ => []
  end.

End Calls.

(** The last value a list of writes gives a key, if it writes it at all. *)
Fixpoint spec_last (key : string) (writes : list (string * Value)) : option Value :=
  match writes with
  | [] => None
  | (k, v) :: rest =>
      match spec_last key rest with
      | Some v' => Some v'
      | None => if decide (k = key) then Some v else None
      end
  end.

(** What the specification says [toJSON()] holds under [key] after [calls],
    starting from contents [m]. *)
Definition spec_toJSON `{ThreadIDLib} (m : gmap string Value) (calls : list Call)
    (key : string) : option Value :=
  match spec_last key (concat (map spec_sets calls)) with
  | Some v => Some v
  | None => m !! key
  end.

(** ** A reference instance of the external collaborators

    Used to run the definitions on concrete inputs: identifiers are
    non-empty byte strings printed in hexadecimal after a ["b"], and base64
    text is decoded up to its first character outside the alphabet. *)

Module Reference.

Definition sextet (a : ascii) : option N :=
  let n := N_of_ascii a in
  if (65 <=? n)%N && (n <=? 90)%N then Some (n - 65)%N
  else if (97 <=? n)%N && (n <=? 122)%N then Some (n - 71)%N
  else if (48 <=? n)%N && (n <=? 57)%N then Some (n + 4)%N
  else if (n =? 43)%N then Some 62%N
  else if (n =? 47)%N then Some 63%N
  else None.

Fixpoint sextets (s : string) : list N :=
  match s with
  | EmptyString => []
  | String a rest =>
      match sextet a with
      | Some v => v :: sextets rest
      | None => []
      end
  end.

Definition to_byte (n : N) : byte := default x00 (Byte.of_N n).

Fixpoint octets (l : list N) : list byte :=
  match l with
  | a :: b :: c :: d :: rest =>
      to_byte (a * 4 + b / 16) :: to_byte ((b mod 16) * 16 + c / 4)
        :: to_byte ((c mod 4) * 64 + d) :: octets rest
  | [a; b; c] => [to_byte (a * 4 + b / 16); to_byte ((b mod 16) * 16 + c / 4)]
  | [a; b] => [to_byte (a * 4 + b / 16)]
  | _ => []
  end%N.

Definition base64_decode (s : string) : list byte := octets (sextets s).

Definition hex_digit (n : N) : ascii :=
  if (n <? 10)%N then ascii_of_N (48 + n) else ascii_of_N (87 + n).

Fixpoint hex (l : list byte) : string :=
  match l with
  | [] => EmptyString
  | b :: rest =>
      let n := Byte.to_N b in
      String (hex_digit (n / 16)) (String (hex_digit (n mod 16)) (hex rest))
  end.

Definition Buffer : BufferLib := {| Buffer_from_base64 := base64_decode |}.

Definition parse (bytes : list byte) : Error + list byte :=
  match bytes with
  | [] => inl (DecodeError "empty identifier")
  | _ => inr bytes
  end.

Definition Threads : ThreadIDLib :=
  {| ThreadID := list byte;
     ThreadID_fromBytes := parse;
     ThreadID_fromString := λ s, parse (String.list_byte_of_string s);
     ThreadID_toString := λ tid, String "b" (hex tid) |}.

(** A connection that answers every [SetupMailbox] and [SendMessage] and
    fails the other calls. *)
Definition connection : GrpcConnection :=
  {| unary := λ R T (method : API R T) (_ : R) (_ : option positive),
       match method in API _ T0 return Promise T0 with
       | SetupMailbox => Resolved (SetupMailboxReply.mk "AAEC")
       | SendMessage => Resolved (SendMessageReply.mk "msg-1" (Num 1000))
       | _ => Rejected (TransportError "unavailable")
       end;
     context := 1%positive |}.

(** The key set [new Context()] starts with. *)
Definition fresh_keys : gmap string Value :=
  <["debug" := VBoolean false]>
    (<["transport" := VTransport WebsocketTransport]>
       (<["host" := VString Context.defaultHost]> ∅)).

(** The store right after [new Context()] on the empty store: instance [1]
    with key set [1]. *)
Definition fresh_store : Store :=
  mkStore {[ 1%positive := fresh_keys ]} {[ 1%positive := 1%positive ]} ∅.

(** Three contexts, each over its own object. *)
Definition three_contexts : Store :=
  mkStore {[ 1%positive := fresh_keys; 2%positive := fresh_keys; 3%positive := fresh_keys ]}
          {[ 1%positive := 1%positive; 2%positive := 2%positive; 3%positive := 3%positive ]}
          ∅.

(** A second context, as after [new Context().withSession("s2")]. *)
Definition two_contexts : Store :=
  mkStore {[ 1%positive := fresh_keys;
             2%positive := <["x-textile-session" := VString "s2"]> fresh_keys ]}
          {[ 1%positive := 1%positive; 2%positive := 2%positive ]} ∅.

End Reference.

(** ** Vocabulary of the statements *)

(** Writing a list of key/value pairs in order. *)
Definition write_all (m : gmap string Value) (writes : list (string * Value))
    : gmap string Value :=
  foldl (λ acc kv, <[kv.1 := kv.2]> acc) m writes.

(** Two object references are deeply equal when they hold the same
    properties with the same values. *)
Definition deep_equal (σ1 : Store) (l1 : positive) (σ2 : Store) (l2 : positive) : Prop :=
  ∃ m, objects σ1 !! l1 = Some m ∧ objects σ2 !! l2 = Some m.

(** The notification ended in an error: thrown, or handed to the callback. *)
Definition raises_error (o : Outcome) : Prop :=
  match o with
  | Throws _ => True
  | Calls _ (Some _) => True
  | Calls _ None => False
  end.

(** ** Programs over contexts *)

Section Operations.
Context `{TL : ThreadIDLib}.

(** One use of the class: the constructor, a method call, or [fromJSON]. *)
Inductive Op : Type :=
  | op_new (host : option string) (transport : option TransportFactory) (debug : option bool)
  | op_set (c : positive) (key : string) (value : Value)
  | op_get (c : positive) (key : string)
  | op_call (c : positive) (call : Call)
  | op_withContext (c : positive) (value : option positive)
  | op_toJSON (c : positive)
  | op_fromJSON (json : positive).

(** Runs it for its effect on the store. *)
Definition run (op : Op) : M unit :=
  match op with
  | op_new host transport debug => Context.new host transport debug;; ret tt
  | op_set c key value => Context.set c key value;; ret tt
  | op_get c key => Context.get c key;; ret tt
  | op_call c call => invoke c call;; ret tt
  | op_withContext c value => Context.withContext c value;; ret tt
  | op_toJSON c => Context.toJSON c;; ret tt
  | op_fromJSON json => Context.fromJSON json;; ret tt
  end.




End Operations.

(** Connections used to run the API on concrete inputs: one on which every
    call fails, one that also knows the mailbox thread. *)
Module ReferenceHub.


Definition message : Message.t :=
  Message.mk "m1" "A" "B" ["001"%byte] ["002"%byte] (Num 1000) (Num 0).

Definition hub : GrpcConnection :=
  {| unary := λ R T (method : API R T) (_ : R) (_ : option positive),
       match method in API _ T0 return Promise T0 with
       | ListThreads =>
           Resolved (ListThreadsReply.mk
                       [GetThreadReply.mk true "hubmail" "AAEC";
                        GetThreadReply.mk false "other" "AwQF"])
       | GetThread => Resolved (GetThreadReply.mk true "hubmail" "AAEC")
       | SetupMailbox => Resolved (SetupMailboxReply.mk "AAEC")
       | ListInboxMessages => Resolved (ListMessagesReply.mk [message])
       | ListSentboxMessages => Resolved (ListMessagesReply.mk [message])
       | _ => Rejected (TransportError "unavailable")
       end;
     context := 1%positive |}.

End ReferenceHub.

(** * Properties *)

(** ** The store *)

Definition store_put (σ : Store) (l : positive) (k : string) (v : Value)
    (m : gmap string Value) : Store :=
  mkStore (<[l := <[k := v]> m]> (objects σ)) (contexts σ) (exotic σ).

(** [c] is a live context whose key set is the object [l], holding [m]. *)
Definition holds (σ : Store) (c l : positive) (m : gmap string Value) : Prop :=
  contexts σ !! c = Some l ∧ objects σ !! l = Some m.

Lemma property_insert_eq m k v : property (<[k := v]> m) k = v.
Proof. unfold property. by rewrite lookup_insert_eq. Qed.

Lemma property_insert_ne m k k' v : k ≠ k' → property (<[k := v]> m) k' = property m k'.
Proof. intros Hne. unfold property. by rewrite lookup_insert_ne. Qed.

(** A key [Object.prototype] does not answer reads [undefined] unless the
    object owns it. *)
Lemma property_plain m k :
  k ≠ "__proto__" → k ∉ Object_prototype_keys →
  property m k = default VUndefined (m !! k).
Proof.
  intros Hproto Hkeys. unfold property, inherited.
  destruct (m !! k); [done |]. by rewrite !decide_False.
Qed.

(** Writing a key other than ["__proto__"] makes it an own property. *)
Lemma put_plain σ l m k v :
  objects σ !! l = Some m → k ≠ "__proto__" →
  put l k v σ = Some (tt, store_put σ l k v m).
Proof.
  intros Hl Hk. unfold put. rewrite Hl.
  destruct (m !! k); [done |]. by rewrite decide_False.
Qed.

Lemma put_key_holds σ c l m k v :
  holds σ c l m → k ≠ "__proto__" →
  put_key c k v σ = Some (tt, store_put σ l k v m).
Proof.
  intros [Hc Hl] Hk. unfold put_key, bind, read_context.
  rewrite Hc. by apply put_plain.
Qed.

Lemma holds_store_put σ c l m k v :
  holds σ c l m → holds (store_put σ l k v m) c l (<[k := v]> m).
Proof.
  intros [Hc Hl]. split; simpl; [done | apply lookup_insert_eq].
Qed.

(** A write through one context is seen by every context sharing the object,
    and by no other. *)
Lemma holds_store_put_other σ c l m k v c' l' m' :
  holds σ c l m → holds σ c' l' m' →
  holds (store_put σ l k v m) c' l' (if decide (l = l') then <[k := v]> m' else m').
Proof.
  intros [Hc Hl] [Hc' Hl']. split; simpl; [done |].
  case_decide as Hll.
  - subst l'. rewrite lookup_insert_eq. congruence.
  - by rewrite lookup_insert_ne.
Qed.

Lemma get_holds σ c l m k :
  holds σ c l m →
  Context.get c k σ = Some (property m k, σ).
Proof.
  intros [Hc Hl]. unfold Context.get, bind, read_context, read.
  by rewrite Hc, Hl.
Qed.

Lemma toJSON_holds σ c l m :
  holds σ c l m → Context.toJSON c σ = Some (l, σ).
Proof.
  intros [Hc _]. unfold Context.toJSON, read_context. by rewrite Hc.
Qed.

Lemma set_holds σ c l m k v :
  holds σ c l m → k ≠ "__proto__" →
  Context.set c k v σ = Some (Context.This c, store_put σ l k v m).
Proof.
  intros H Hk. unfold Context.set, bind. by rewrite (put_key_holds _ _ _ _ _ _ H Hk).
Qed.



(** The constructor on any store: a fresh object with the three defaults and
    a fresh instance pointing to it, everything else untouched. *)
Lemma new_spec σ host transport debug :
  let l := fresh (dom (objects σ) ∪ dom (exotic σ)) in
  let c := fresh (dom (contexts σ)) in
  let m : gmap string Value :=
    <["debug" := VBoolean (default false debug)]>
      (<["transport" := VTransport (default WebsocketTransport transport)]>
         (<["host" := VString (default Context.defaultHost host)]> ∅)) in
  Context.new host transport debug σ
  = Some (c, mkStore (<[l := m]> (objects σ)) (<[c := l]> (contexts σ)) (exotic σ)).
Proof.
  intros l c m. unfold Context.new, bind, alloc_object, alloc_context; simpl.
  fold l c.
  set (σ1 := mkStore (<[l := ∅]> (objects σ)) (<[c := l]> (contexts σ)) (exotic σ)).
  assert (H1 : holds σ1 c l ∅) by (split; simpl; apply lookup_insert_eq).
  rewrite (put_key_holds _ _ _ _ _ _ H1) by done.
  pose proof (holds_store_put _ _ _ _ "host" (VString (default Context.defaultHost host)) H1) as H2.
  rewrite (put_key_holds _ _ _ _ _ _ H2) by done.
  pose proof (holds_store_put _ _ _ _ "transport"
                (VTransport (default WebsocketTransport transport)) H2) as H3.
  rewrite (put_key_holds _ _ _ _ _ _ H3) by done.
  unfold ret, store_put; simpl. do 3 f_equal.
  by rewrite !insert_insert_eq.
Qed.

Lemma fresh_object_ne σ l m :
  objects σ !! l = Some m → fresh (dom (objects σ) ∪ dom (exotic σ)) ≠ l.
Proof.
  intros Hl Heq. apply (is_fresh (dom (objects σ) ∪ dom (exotic σ))).
  rewrite Heq. apply elem_of_union_l, elem_of_dom. eauto.
Qed.

Lemma fresh_object_None σ :
  objects σ !! fresh (dom (objects σ) ∪ dom (exotic σ)) = None.
Proof.
  apply not_elem_of_dom. intros Hin.
  apply (is_fresh (dom (objects σ) ∪ dom (exotic σ))). by apply elem_of_union_l.
Qed.

Lemma fresh_context_ne σ c l :
  contexts σ !! c = Some l → fresh (dom (contexts σ)) ≠ c.
Proof.
  intros Hc Heq. apply (is_fresh (dom (contexts σ))).
  rewrite Heq. apply elem_of_dom. eauto.
Qed.


(** Rebinding a context to a live object keeps the store well formed. *)
Lemma withContext_wf σ a b :
  wf σ → is_Some (contexts σ !! a) → is_Some (contexts σ !! b) →
  ∃ σ', Context.withContext a (Some b) σ = Some (Context.This a, σ') ∧ wf σ'.
Proof.
  intros Hwf [la Ha] [lb Hb].
  unfold Context.withContext, bind, read_context, assign_context, ret.
  rewrite Hb, Ha. eexists. split; [reflexivity |].
  intros c l Hc. simpl in *. destruct (decide (a = c)) as [<-|Hne].
  - rewrite lookup_insert_eq in Hc. injection Hc as <-. eauto.
  - rewrite lookup_insert_ne in Hc by done. eauto.
Qed.

(** ** Fluent mutators *)

Section FluentCalls.
Context `{TL : ThreadIDLib}.

Lemma write_all_app m ws1 ws2 :
  write_all m (ws1 ++ ws2) = write_all (write_all m ws1) ws2.
Proof. apply foldl_app. Qed.

(** After a list of writes a key holds its last written value, or what it
    held before when no write names it. *)
Lemma write_all_lookup ws : ∀ m key,
  write_all m ws !! key
  = match spec_last key ws with
    | Some v => Some v
    | None => m !! key
    end.
Proof.
  induction ws as [|[k v] ws IH]; intros m key; simpl; [done |].
  rewrite IH. destruct (spec_last key ws) as [v'|]; [done |].
  case_decide as Hk.
  - subst. apply lookup_insert_eq.
  - by apply lookup_insert_ne.
Qed.

(** What a call hands back. *)
Lemma invoke_undefined_argument c call τ :
  argument_undefined call = true →
  invoke c call τ = Some (Context.This c, τ) ∧ spec_sets call = [].
Proof.
  destruct call as [[v|]|[v|]|[v|]|[v|]|[v|]|[v|]|[v|]]; simpl; try discriminate;
    intros _; done.
Qed.

(** One call on a live context: it runs, stays within the context's own
    object, performs exactly the writes the specification lists and rebinds
    no context. *)
Lemma invoke_holds σ c l m call :
  holds σ c l m →
  ∃ r σ', invoke c call σ = Some (r, σ')
          ∧ holds σ' c l (write_all m (spec_sets call))
          ∧ contexts σ' = contexts σ
          ∧ r = (match call with
                 | call_withAPIKey (Some _) => Context.Undefined
                 | _ => Context.This c
                 end).
Proof.
  intros H.
  destruct call as [[v|]|[v|]|[v|]|[v|]|[v|]|[v|]|[v|]]; simpl;
    try (eexists _, σ; split; [reflexivity | split; [exact H | split; reflexivity]]).
  all: unfold Context.withSession, Context.withThread, Context.withThreadName,
         Context.withOrg, Context.withToken, Context.withAPIKey, Context.withAPISig,
         bind, ret.
  all: rewrite (put_key_holds _ _ _ _ _ _ H) by done.
  all: try (eexists _, _; split; [reflexivity |];
            split; [by apply holds_store_put | split; reflexivity]).
  pose proof (holds_store_put _ _ _ _ "x-textile-api-sig-msg" (VString (Context.msg v)) H) as H'.
  rewrite (put_key_holds _ _ _ _ _ _ H') by done.
  eexists _, _; split; [reflexivity |].
  split; [by apply holds_store_put | split; reflexivity].
Qed.

(** A fluent call through one context is seen through every context that
    shares its key set. *)
Lemma invoke_holds_shared σ c c' l m call :
  holds σ c l m → contexts σ !! c' = Some l →
  ∃ r σ', invoke c call σ = Some (r, σ')
          ∧ holds σ' c' l (write_all m (spec_sets call)).
Proof.
  intros H Hc'. destruct (invoke_holds _ _ _ _ call H) as (r & σ' & Hrun & [_ Hl] & Hctx & _).
  exists r, σ'. split; [done |]. split; [by rewrite Hctx | done].
Qed.

Lemma invoke_all_holds calls : ∀ σ c l m,
  holds σ c l m →
  ∃ σ', invoke_all c calls σ = Some (tt, σ')
        ∧ holds σ' c l (write_all m (concat (map spec_sets calls))).
Proof.
  induction calls as [|call calls IH]; intros σ c l m H; simpl.
  - by exists σ.
  - destruct (invoke_holds _ _ _ _ call H) as (r & σ1 & Hrun & H1 & _).
    destruct (IH _ _ _ _ H1) as (σ2 & Hrest & H2).
    exists σ2. unfold bind. rewrite Hrun. split; [done |].
    by rewrite write_all_app.
Qed.

(** C1 (the defect): on a live context, [withAPIKey] given a defined key
    stores it under ["x-textile-api-key"] and then returns [undefined], not
    the receiver. *)
Theorem withAPIKey_returns_undefined σ c l m (key : string) :
  holds σ c l m →
  Context.withAPIKey c (Some key) σ
  = Some (Context.Undefined, store_put σ l "x-textile-api-key" (VString key) m).
Proof.
  intros H. unfold Context.withAPIKey, bind, ret.
  rewrite (put_key_holds _ _ _ _ _ _ H) by done; done.
Qed.

(** The other six single-key mutators do return the receiver. *)
Lemma siblings_return_this σ c l m call :
  holds σ c l m →
  (∀ v, call ≠ call_withAPIKey (Some v)) →
  ∃ σ', invoke c call σ = Some (Context.This c, σ').
Proof.
  intros H Hne. destruct (invoke_holds _ _ _ _ call H) as (r & σ' & Hrun & _ & _ & ->).
  exists σ'. rewrite Hrun. destruct call as [| | | | |[v|]|]; try done.
  by destruct (Hne v).
Qed.

(** C5: after any sequence of single-key [with*] calls on a live context,
    [toJSON()] is still the same object and every key holds the last value
    the sequence set for it, or its earlier value when no call with a defined
    argument names it; and a call whose argument is [undefined] leaves the
    whole store as it was. *)
Theorem toJSON_reflects_last_write σ c l m (calls : list Call) :
  holds σ c l m →
  (∃ σ' m', invoke_all c calls σ = Some (tt, σ')
            ∧ Context.toJSON c σ' = Some (l, σ')
            ∧ objects σ' !! l = Some m'
            ∧ ∀ key, m' !! key = spec_toJSON m calls key)
  ∧ (∀ τ call, argument_undefined call = true →
               invoke c call τ = Some (Context.This c, τ)).
Proof.
  intros H. split.
  - destruct (invoke_all_holds calls _ _ _ _ H) as (σ' & Hrun & H').
    exists σ', (write_all m (concat (map spec_sets calls))).
    split; [done |]. split; [by eapply toJSON_holds |].
    split; [apply H' |]. intros key. unfold spec_toJSON. apply write_all_lookup.
  - intros τ call Hu. by apply invoke_undefined_argument.
Qed.


End FluentCalls.

(** ** Sharing of key sets *)

(** [fromJSON] on any store: a fresh instance whose key set is the given
    object itself; the object made by the constructor is left behind. *)
Lemma fromJSON_spec σ json :
  ∃ l0 m0,
    let c' := fresh (dom (contexts σ)) in
    Context.fromJSON json σ
    = Some (c', mkStore (<[l0 := m0]> (objects σ)) (<[c' := json]> (contexts σ)) (exotic σ))
    ∧ l0 = fresh (dom (objects σ) ∪ dom (exotic σ)).
Proof.
  eexists _, _. simpl. split; [| reflexivity].
  unfold Context.fromJSON, bind. rewrite new_spec.
  unfold assign_context, ret; simpl. rewrite lookup_insert_eq.
  by rewrite insert_insert_eq.
Qed.

(** [set] on a live context returns the receiver, whatever the key and the
    value, and rebinds no context. *)
Lemma set_runs σ c l m key value :
  holds σ c l m →
  ∃ σ', Context.set c key value σ = Some (Context.This c, σ')
        ∧ contexts σ' = contexts σ.
Proof.
  intros [Hc Hl]. unfold Context.set, put_key, bind, read_context, put, ret.
  rewrite Hc, Hl. destruct (m !! key); [eauto |].
  destruct (decide (key = "__proto__")); [| eauto].
  destruct (replaces_prototype value); eauto.
Qed.

(** Two contexts over one object read the same under every key. *)
Lemma get_same_object σ a b l key :
  contexts σ !! a = Some l → contexts σ !! b = Some l →
  Context.get a key σ = Context.get b key σ.
Proof.
  intros Ha Hb. unfold Context.get, bind, read_context. by rewrite Ha, Hb.
Qed.

(** C6: for a live context [ctx], [Context.fromJSON(ctx.toJSON())] runs and
    yields a new context whose [toJSON()] is the very object [ctx.toJSON()]
    gave, with its contents (extension keys included) as they were; so the
    two are deeply equal, and [get] gives through the new context, under
    every key, what it gave through [ctx]. *)
Theorem fromJSON_toJSON_roundtrip σ c l m :
  holds σ c l m →
  ∃ c' σ',
    (let! json := Context.toJSON c in Context.fromJSON json) σ = Some (c', σ')
    ∧ c' ≠ c
    ∧ Context.toJSON c' σ' = Some (l, σ')
    ∧ Context.toJSON c σ' = Some (l, σ')
    ∧ objects σ' !! l = Some m
    ∧ deep_equal σ' l σ l
    ∧ ∀ key, Context.get c' key σ' = Some (property m key, σ')
             ∧ Context.get c key σ = Some (property m key, σ).
Proof.
  intros H. pose proof H as [Hc Hl].
  destruct (fromJSON_spec σ l) as (l0 & m0 & Hrun & Hl0). simpl in Hrun.
  set (c' := fresh (dom (contexts σ))) in *.
  set (σ' := mkStore (<[l0 := m0]> (objects σ)) (<[c' := l]> (contexts σ)) (exotic σ)) in *.
  assert (Hne : c' ≠ c) by exact (fresh_context_ne _ _ _ Hc).
  assert (Hl' : objects σ' !! l = Some m).
  { simpl. rewrite lookup_insert_ne; [done |]. subst l0. exact (fresh_object_ne _ _ _ Hl). }
  assert (H' : holds σ' c' l m) by (split; [apply lookup_insert_eq | done]).
  assert (H'' : holds σ' c l m).
  { split; [| done]. simpl. by rewrite lookup_insert_ne. }
  exists c', σ'. unfold bind. rewrite (toJSON_holds _ _ _ _ H), Hrun.
  split; [done |]. split; [done |].
  split; [by eapply toJSON_holds |]. split; [by eapply toJSON_holds |].
  split; [done |]. split; [by exists m |].
  intros key. split; [exact (get_holds _ _ _ _ key H') | exact (get_holds _ _ _ _ key H)].
Qed.

(** A [set] through one of two contexts over the same object: it runs,
    what it stores under a key other than ["__proto__"] is read through the
    other, and after it both still read the same under every key. *)
Lemma set_seen_through_alias σ a b l m key value :
  holds σ a l m → holds σ b l m →
  ∃ σ', Context.set b key value σ = Some (Context.This b, σ')
        ∧ (key ≠ "__proto__" → Context.get a key σ' = Some (value, σ'))
        ∧ ∀ key', Context.get a key' σ' = Context.get b key' σ'.
Proof.
  intros Ha Hb. destruct (set_runs _ _ _ _ key value Hb) as (σ' & Hset & Hctx).
  exists σ'. split; [done |]. split.
  - intros Hkey. rewrite (set_holds _ _ _ _ key value Hb Hkey) in Hset.
    injection Hset as <-.
    pose proof (holds_store_put_other _ _ _ _ key value _ _ _ Hb Ha) as Hview.
    rewrite decide_True in Hview by done.
    rewrite (get_holds _ _ _ _ key Hview). by rewrite property_insert_eq.
  - intros key'. destruct Ha as [Ha _], Hb as [Hb _].
    apply (get_same_object _ _ _ l); by rewrite Hctx.
Qed.

(** Once [a] has taken over the key set of [d], kept in another object than
    the one [b] uses, a key set through [a] no longer reaches [b]. *)
Lemma rebound_context_is_separate σ a b l m d ld md key value :
  a ≠ b → holds σ a l m → holds σ b l m → holds σ d ld md → ld ≠ l →
  key ≠ "__proto__" →
  ∃ σ2 σ3,
    Context.withContext a (Some d) σ = Some (Context.This a, σ2)
    ∧ Context.set a key value σ2 = Some (Context.This a, σ3)
    ∧ Context.get a key σ3 = Some (value, σ3)
    ∧ Context.get b key σ3 = Some (property m key, σ3).
Proof.
  intros Hab [Ha Hl] [Hb _] [Hd Hld] Hne Hkey.
  set (σ2 := mkStore (objects σ) (<[a := ld]> (contexts σ)) (exotic σ)).
  assert (Ha2 : holds σ2 a ld md) by (split; [apply lookup_insert_eq | done]).
  assert (Hb2 : holds σ2 b l m).
  { split; [| done]. simpl. by rewrite lookup_insert_ne. }
  exists σ2, (store_put σ2 ld key value md). split.
  { unfold Context.withContext, bind, read_context, assign_context, ret.
    by rewrite Hd, Ha. }
  split; [by apply set_holds |].
  pose proof (holds_store_put _ _ _ _ key value Ha2) as Ha3.
  pose proof (holds_store_put_other _ _ _ _ key value _ _ _ Ha2 Hb2) as Hb3.
  rewrite decide_False in Hb3 by done.
  rewrite (get_holds _ _ _ _ key Ha3), (get_holds _ _ _ _ key Hb3).
  by rewrite property_insert_eq.
Qed.

(** C9: for live contexts [a] and [b], [a.withContext(b)] returns [a] and
    makes [a]'s key set the very object [b] uses, copying nothing, so both
    [toJSON()] give the same reference; from then on a [set] through either
    leaves both reading the same under every key, and what it stores under a
    key other than ["__proto__"] is read through the other; and once one of
    the two takes over the key set of a context [d] kept in another object,
    a key set through it no longer reaches the other. *)
Theorem withContext_shares_key_set σ a b la ma lb mb :
  holds σ a la ma → holds σ b lb mb →
  ∃ σ1,
    Context.withContext a (Some b) σ = Some (Context.This a, σ1)
    ∧ objects σ1 = objects σ
    ∧ Context.toJSON a σ1 = Some (lb, σ1)
    ∧ Context.toJSON b σ1 = Some (lb, σ1)
    ∧ (∀ key value, ∃ σ2,
         Context.set b key value σ1 = Some (Context.This b, σ2)
         ∧ (key ≠ "__proto__" → Context.get a key σ2 = Some (value, σ2))
         ∧ ∀ key', Context.get a key' σ2 = Context.get b key' σ2)
    ∧ (∀ key value, ∃ σ2,
         Context.set a key value σ1 = Some (Context.This a, σ2)
         ∧ (key ≠ "__proto__" → Context.get b key σ2 = Some (value, σ2))
         ∧ ∀ key', Context.get a key' σ2 = Context.get b key' σ2)
    ∧ (∀ d ld md key value,
         a ≠ b → holds σ1 d ld md → ld ≠ lb → key ≠ "__proto__" →
         ∃ σ2 σ3,
           Context.withContext a (Some d) σ1 = Some (Context.This a, σ2)
           ∧ Context.set a key value σ2 = Some (Context.This a, σ3)
           ∧ Context.get a key σ3 = Some (value, σ3)
           ∧ Context.get b key σ3 = Some (property mb key, σ3))
    ∧ (∀ d ld md key value,
         a ≠ b → holds σ1 d ld md → ld ≠ lb → key ≠ "__proto__" →
         ∃ σ2 σ3,
           Context.withContext b (Some d) σ1 = Some (Context.This b, σ2)
           ∧ Context.set b key value σ2 = Some (Context.This b, σ3)
           ∧ Context.get b key σ3 = Some (value, σ3)
           ∧ Context.get a key σ3 = Some (property mb key, σ3)).
Proof.
  intros [Ha Hla] [Hb Hlb].
  set (σ1 := mkStore (objects σ) (<[a := lb]> (contexts σ)) (exotic σ)).
  assert (Ha1 : holds σ1 a lb mb) by (split; [apply lookup_insert_eq | done]).
  assert (Hb1 : holds σ1 b lb mb).
  { split; [| done]. simpl. destruct (decide (a = b)) as [->|Hne].
    - apply lookup_insert_eq.
    - by rewrite lookup_insert_ne. }
  exists σ1. split.
  { unfold Context.withContext, bind, read_context, assign_context, ret.
    by rewrite Hb, Ha. }
  split; [done |]. split; [by eapply toJSON_holds |]. split; [by eapply toJSON_holds |].
  split; [| split; [| split]].
  - intros key value. exact (set_seen_through_alias _ _ _ _ _ key value Ha1 Hb1).
  - intros key value.
    destruct (set_seen_through_alias _ _ _ _ _ key value Hb1 Ha1) as (σ2 & Hset & Hget & Hsame).
    exists σ2. split; [done |]. split; [done |]. intros key'. by rewrite Hsame.
  - intros d ld md key value Hab Hd Hne Hkey.
    exact (rebound_context_is_separate _ _ _ _ _ _ _ _ key value Hab Ha1 Hb1 Hd Hne Hkey).
  - intros d ld md key value Hab Hd Hne Hkey.
    apply (rebound_context_is_separate _ b a lb mb d ld md key value); auto.
Qed.

(** The reference stores are what the constructor builds. *)
Lemma fresh_store_is_new :
  Context.new None None None empty_store = Some (1%positive, Reference.fresh_store).
Proof. vm_compute. reflexivity. Qed.

Lemma two_contexts_is_new :
  (let! c := Context.new None None None in
   Context.withSession c (Some "s2")) Reference.fresh_store
  = Some (Context.This 2%positive, Reference.two_contexts).
Proof. vm_compute. reflexivity. Qed.

Lemma withAPIKey_returns_undefined_witness :
  Context.withAPIKey 1%positive (Some "key") Reference.fresh_store
  = Some (Context.Undefined,
          store_put Reference.fresh_store 1%positive "x-textile-api-key" (VString "key")
            Reference.fresh_keys).
Proof.
  apply (withAPIKey_returns_undefined Reference.fresh_store 1%positive 1%positive
           Reference.fresh_keys "key").
  split; reflexivity.
Defined.

Lemma toJSON_reflects_last_write_witness :
  ∃ σ' m',
    invoke_all (TL := Reference.Threads) 1%positive
      [call_withSession (Some "a"); call_withToken (Some "t"); call_withOrg None;
       call_withAPIKey (Some "k"); call_withSession (Some "b")] Reference.fresh_store
    = Some (tt, σ')
    ∧ objects σ' !! 1%positive = Some m'
    ∧ m' !! "x-textile-session" = Some (VString "b")
    ∧ m' !! "authorization" = Some (VString "bearer t")
    ∧ m' !! "x-textile-org" = None
    ∧ m' !! "host" = Some (VString Context.defaultHost).
Proof.
  destruct (toJSON_reflects_last_write (TL := Reference.Threads)
              Reference.fresh_store 1%positive 1%positive Reference.fresh_keys
              [call_withSession (Some "a"); call_withToken (Some "t"); call_withOrg None;
               call_withAPIKey (Some "k"); call_withSession (Some "b")])
    as [(σ' & m' & Hrun & _ & Hm' & Hkeys) _].
  - split; reflexivity.
  - exists σ', m'. split; [exact Hrun |]. split; [exact Hm' |].
    rewrite !Hkeys. vm_compute. repeat split; reflexivity.
Defined.



Lemma fromJSON_toJSON_roundtrip_witness :
  ∃ c' σ',
    (let! json := Context.toJSON 2%positive in Context.fromJSON json) Reference.two_contexts
    = Some (c', σ')
    ∧ Context.toJSON c' σ' = Some (2%positive, σ')
    ∧ Context.get c' "x-textile-session" σ' = Some (VString "s2", σ').
Proof.
  destruct (fromJSON_toJSON_roundtrip Reference.two_contexts 2%positive 2%positive
              (<["x-textile-session" := VString "s2"]> Reference.fresh_keys))
    as (c' & σ' & Hrun & _ & Hjson & _ & _ & _ & Hget).
  - split; reflexivity.
  - exists c', σ'. split; [exact Hrun |]. split; [exact Hjson |].
    exact (proj1 (Hget "x-textile-session")).
Defined.

Lemma withContext_shares_key_set_witness :
  ∃ σ1,
    Context.withContext 1%positive (Some 2%positive) Reference.three_contexts
    = Some (Context.This 1%positive, σ1)
    ∧ Context.toJSON 1%positive σ1 = Some (2%positive, σ1)
    ∧ Context.toJSON 2%positive σ1 = Some (2%positive, σ1)
    ∧ (∃ σ2, Context.set 2%positive "x-textile-org" (VString "org") σ1
             = Some (Context.This 2%positive, σ2)
             ∧ Context.get 1%positive "x-textile-org" σ2 = Some (VString "org", σ2))
    ∧ (∃ σ2 σ3,
         Context.withContext 2%positive (Some 3%positive) σ1
         = Some (Context.This 2%positive, σ2)
         ∧ Context.set 2%positive "x-textile-org" (VString "org") σ2
           = Some (Context.This 2%positive, σ3)
         ∧ Context.get 2%positive "x-textile-org" σ3 = Some (VString "org", σ3)
         ∧ Context.get 1%positive "x-textile-org" σ3 = Some (VUndefined, σ3)).
Proof.
  destruct (withContext_shares_key_set Reference.three_contexts 1%positive 2%positive
              1%positive Reference.fresh_keys 2%positive Reference.fresh_keys)
    as (σ1 & Hrun & Hobj & Ha & Hb & Hba & _ & _ & Hrebind).
  - split; reflexivity.
  - split; reflexivity.
  - exists σ1. split; [exact Hrun |]. split; [exact Ha |]. split; [exact Hb |]. split.
    + destruct (Hba "x-textile-org" (VString "org")) as (σ2 & Hset & Hget & _).
      exists σ2. split; [exact Hset | apply Hget; discriminate].
    + apply (Hrebind 3%positive 3%positive Reference.fresh_keys "x-textile-org"
               (VString "org")).
      * discriminate.
      * vm_compute in Hrun. injection Hrun as <-. split; reflexivity.
      * discriminate.
      * discriminate.
Defined.

(** ** Listing options *)

Lemma truthy_string_spec s : truthy_string s = true ↔ s ≠ "".
Proof. destruct s; simpl; split; congruence. Qed.

Lemma truthy_number_spec n : truthy_number n = true ↔ n ≠ NaN ∧ n ≠ Num 0.
Proof.
  destruct n as [|z]; simpl.
  - split; [discriminate | intros [? _]; congruence].
  - destruct (Z.eqb_spec z 0) as [->|Hz]; simpl.
    + split; [discriminate | intros [_ ?]; congruence].
    + split; [| done]. intros _. split; congruence.
Qed.

Lemma truthy_Status_spec s : truthy_Status s = true ↔ s ≠ ALL.
Proof. destruct s; vm_compute; split; congruence. Qed.

(** What a guarded setter leaves in the field it sets, read back by [get],
    when the request did not carry the field before. *)
Lemma set_if_truthy_spec {O A R} (truthy : A → bool) (opts : option O)
    (field : O → option A) (setter : A → R → R) (get : R → option A) (req : R) :
  (∀ v r, get (setter v r) = Some v) →
  get req = None →
  ∀ v, get (set_if_truthy truthy opts field setter req) = Some v
       ↔ opts ≫= field = Some v ∧ truthy v = true.
Proof.
  intros Hset Hnone v. unfold set_if_truthy.
  destruct opts as [o|]; simpl;
    [| rewrite Hnone; split; [congruence | intros [? ?]; congruence]].
  destruct (field o) as [w|];
    [| rewrite Hnone; split; [congruence | intros [? ?]; congruence]].
  destruct (truthy w) eqn:Hw.
  - rewrite Hset. split; [intros E; split; congruence | intros [? ?]; congruence].
  - rewrite Hnone. split; [congruence | intros [? ?]; congruence].
Qed.

(** A guarded setter leaves alone what its setter leaves alone. *)
Lemma set_if_truthy_frame {O A B R} (truthy : A → bool) (opts : option O)
    (field : O → option A) (setter : A → R → R) (get : R → B) (req : R) :
  (∀ v r, get (setter v r) = get r) →
  get (set_if_truthy truthy opts field setter req) = get req.
Proof.
  intros Hframe. unfold set_if_truthy.
  destruct opts as [o|]; [| done]. destruct (field o) as [w|]; [| done].
  by destruct (truthy w).
Qed.

(** Reads the field [get] off a chain of guarded setters: the outer setters
    are skipped, the field's own setter is characterised, and below it the
    field is still unset. *)
Ltac skip_setters get :=
  repeat (rewrite (set_if_truthy_frame _ _ _ _ get) by (intros; reflexivity)).
Ltac guarded_field get :=
  skip_setters get;
  rewrite (set_if_truthy_spec _ _ _ _ get)
    by first [ intros; reflexivity | skip_setters get; reflexivity ].

(** C2 (as the code has it): a field of the options reaches the request
    exactly when the options are given, the field is present and its value
    is truthy: a non-empty [seek], a [limit] other than [0] and [NaN],
    [ascending] equal to [true], a [status] other than [ALL]; the value set
    is the option's; the sentbox request has no status at all. *)
Theorem list_requests_carry_truthy_fields
    (io : option InboxListOptions.t) (so : option SentboxListOptions.t) :
  let ireq := listInboxMessagesRequest io in
  let sreq := listSentboxMessagesRequest so in
  (∀ s, ListInboxMessagesRequest.seek ireq = Some s
        ↔ io ≫= InboxListOptions.seek = Some s ∧ s ≠ "")
  ∧ (∀ n, ListInboxMessagesRequest.limit ireq = Some n
          ↔ io ≫= InboxListOptions.limit = Some n ∧ n ≠ NaN ∧ n ≠ Num 0)
  ∧ (∀ b, ListInboxMessagesRequest.ascending ireq = Some b
          ↔ io ≫= InboxListOptions.ascending = Some b ∧ b = true)
  ∧ (∀ st, ListInboxMessagesRequest.status ireq = Some st
           ↔ io ≫= InboxListOptions.status = Some st ∧ st ≠ ALL)
  ∧ (∀ s, ListSentboxMessagesRequest.seek sreq = Some s
          ↔ so ≫= SentboxListOptions.seek = Some s ∧ s ≠ "")
  ∧ (∀ n, ListSentboxMessagesRequest.limit sreq = Some n
          ↔ so ≫= SentboxListOptions.limit = Some n ∧ n ≠ NaN ∧ n ≠ Num 0)
  ∧ (∀ b, ListSentboxMessagesRequest.ascending sreq = Some b
          ↔ so ≫= SentboxListOptions.ascending = Some b ∧ b = true).
Proof.
  intros ireq sreq. subst ireq sreq.
  unfold listInboxMessagesRequest, listSentboxMessagesRequest.
  repeat apply conj; intros v.
  - guarded_field ListInboxMessagesRequest.seek. by rewrite truthy_string_spec.
  - guarded_field ListInboxMessagesRequest.limit. by rewrite truthy_number_spec.
  - guarded_field ListInboxMessagesRequest.ascending.
    unfold truthy_boolean. split; intros [? ?]; by subst.
  - guarded_field ListInboxMessagesRequest.status. by rewrite truthy_Status_spec.
  - guarded_field ListSentboxMessagesRequest.seek. by rewrite truthy_string_spec.
  - guarded_field ListSentboxMessagesRequest.limit. by rewrite truthy_number_spec.
  - guarded_field ListSentboxMessagesRequest.ascending.
    unfold truthy_boolean. split; intros [? ?]; by subst.
Qed.

(** C2 (as stated) fails: options in which [limit], [ascending] and [status]
    are all present, with the values [0], [false] and [ALL], and [seek] is the
    empty string, give requests on which none of the setters ran. *)
Lemma present_falsy_fields_are_omitted :
  let io := InboxListOptions.mk (Some "") (Some (Num 0)) (Some false) (Some ALL) in
  let so := SentboxListOptions.mk (Some "") (Some (Num 0)) (Some false) in
  is_Some (InboxListOptions.limit io)
  ∧ listInboxMessagesRequest (Some io) = ListInboxMessagesRequest.new
  ∧ ListInboxMessagesRequest.limit (listInboxMessagesRequest (Some io)) = None
  ∧ is_Some (SentboxListOptions.limit so)
  ∧ listSentboxMessagesRequest (Some so) = ListSentboxMessagesRequest.new
  ∧ ListSentboxMessagesRequest.limit (listSentboxMessagesRequest (Some so)) = None.
Proof. repeat split; eauto. Qed.

(** The request the transport is handed is the one characterised above. *)
Lemma listInboxMessages_submits api opts ctx :
  listInboxMessages api opts ctx
  = await (unary api ListInboxMessages (listInboxMessagesRequest opts) ctx)
      (λ res, Resolved (map convertMessageObj (ListMessagesReply.getMessagesList res))).
Proof. reflexivity. Qed.

Lemma listSentboxMessages_submits api opts ctx :
  listSentboxMessages api opts ctx
  = await (unary api ListSentboxMessages (listSentboxMessagesRequest opts) ctx)
      (λ res, Resolved (map convertMessageObj (ListMessagesReply.getMessagesList res))).
Proof. reflexivity. Qed.

(** ** Sending *)

(** C7: whenever the transport answers [sendMessage]'s request with a reply,
    [sendMessage] resolves to a message whose body, signature, recipient and
    sender are the caller's [fromBody], [fromSignature], [to] and [from], and
    whose identifier and creation time are the reply's; it has no read time. *)
Theorem sendMessage_keeps_sender_copy (api : GrpcConnection) (from to : string)
    (toBody toSignature fromBody fromSignature : list byte) (ctx : option positive)
    (res : SendMessageReply.t) :
  unary api SendMessage (sendMessageRequest to toBody toSignature fromBody fromSignature) ctx
  = Resolved res →
  ∃ message,
    sendMessage api from to toBody toSignature fromBody fromSignature ctx = Resolved message
    ∧ UserMessage.body message = fromBody
    ∧ UserMessage.signature message = fromSignature
    ∧ UserMessage.to message = to
    ∧ UserMessage.from message = from
    ∧ UserMessage.id message = SendMessageReply.getId res
    ∧ UserMessage.createdAt message = SendMessageReply.getCreatedat res
    ∧ UserMessage.readAt message = None.
Proof.
  intros Hres. unfold sendMessage. rewrite Hres. simpl.
  eexists. split; [reflexivity |]. repeat split.
Qed.

Lemma sendMessage_keeps_sender_copy_witness :
  ∃ message,
    sendMessage Reference.connection "alice" "bob" ["001"%byte] ["002"%byte]
      ["003"%byte] ["004"%byte] None = Resolved message
    ∧ UserMessage.body message = ["003"%byte]
    ∧ UserMessage.signature message = ["004"%byte]
    ∧ UserMessage.id message = "msg-1".
Proof.
  destruct (sendMessage_keeps_sender_copy Reference.connection "alice" "bob"
              ["001"%byte] ["002"%byte] ["003"%byte] ["004"%byte] None
              (SendMessageReply.mk "msg-1" (Num 1000)))
    as (message & Hrun & Hbody & Hsig & _ & _ & Hid & _).
  - reflexivity.
  - exists message. repeat split; assumption.
Defined.

(** A failed call is passed on. *)
Lemma sendMessage_rejected api from to toBody toSignature fromBody fromSignature ctx e :
  unary api SendMessage (sendMessageRequest to toBody toSignature fromBody fromSignature) ctx
  = Rejected e →
  sendMessage api from to toBody toSignature fromBody fromSignature ctx = Rejected e.
Proof. intros Hres. unfold sendMessage. by rewrite Hres. Qed.

(** ** Mailbox identifier *)

Section Identifier.
Context `{TL : ThreadIDLib} `{BL : BufferLib}.

(** C8: when the transport answers with a reply whose base64 text decodes to
    bytes that are an identifier, [setupMailbox] resolves to that
    identifier's [toString()]: base64 to bytes, bytes to identifier,
    identifier to string, each once. *)
Theorem setupMailbox_decodes_once (api : GrpcConnection) (ctx : option positive)
    (res : SetupMailboxReply.t) (tid : ThreadID) :
  unary api SetupMailbox SetupMailboxRequest.new ctx = Resolved res →
  ThreadID_fromBytes (Buffer_from_base64 (SetupMailboxReply.getMailboxid_asB64 res))
  = inr tid →
  setupMailbox api ctx = Resolved (ThreadID_toString tid).
Proof.
  intros Hres Htid. unfold setupMailbox, decodeThreadID. rewrite Hres. simpl.
  by rewrite Htid.
Qed.

(** The result is a function of the decoded bytes, not of the base64 text:
    replies whose texts decode to the same bytes give the same result. *)
Lemma setupMailbox_reads_bytes_only (api api' : GrpcConnection) (ctx ctx' : option positive)
    (res res' : SetupMailboxReply.t) :
  unary api SetupMailbox SetupMailboxRequest.new ctx = Resolved res →
  unary api' SetupMailbox SetupMailboxRequest.new ctx' = Resolved res' →
  Buffer_from_base64 (SetupMailboxReply.getMailboxid_asB64 res)
  = Buffer_from_base64 (SetupMailboxReply.getMailboxid_asB64 res') →
  setupMailbox api ctx = setupMailbox api' ctx'.
Proof.
  intros Hres Hres' Hbytes. unfold setupMailbox, decodeThreadID.
  rewrite Hres, Hres'. simpl. by rewrite Hbytes.
Qed.

(** Bytes that are no identifier make the call fail instead. *)
Lemma setupMailbox_bad_identifier (api : GrpcConnection) (ctx : option positive)
    (res : SetupMailboxReply.t) (e : Error) :
  unary api SetupMailbox SetupMailboxRequest.new ctx = Resolved res →
  ThreadID_fromBytes (Buffer_from_base64 (SetupMailboxReply.getMailboxid_asB64 res))
  = inl e →
  setupMailbox api ctx = Rejected e.
Proof.
  intros Hres Htid. unfold setupMailbox, decodeThreadID. rewrite Hres. simpl.
  by rewrite Htid.
Qed.

End Identifier.

Lemma setupMailbox_decodes_once_witness :
  setupMailbox (TL := Reference.Threads) (BL := Reference.Buffer) Reference.connection None
  = Resolved "b000102".
Proof.
  apply (setupMailbox_decodes_once (TL := Reference.Threads) (BL := Reference.Buffer)
           Reference.connection None (SetupMailboxReply.mk "AAEC")
           ["000"%byte; "001"%byte; "002"%byte]).
  - reflexivity.
  - reflexivity.
Defined.

(** ** Translating change notifications *)

Lemma MailboxEventType_of_value t :
  MailboxEventType_of (MailboxEventType_value t) = Some t.
Proof. by destruct t. Qed.

Lemma MailboxEventType_of_Some n t :
  MailboxEventType_of n = Some t ↔ n = MailboxEventType_value t.
Proof.
  unfold MailboxEventType_of.
  destruct (Z.eqb_spec n 0) as [->|?]; [destruct t; simpl; split; (done || lia) |].
  destruct (Z.eqb_spec n 1) as [->|?]; [destruct t; simpl; split; (done || lia) |].
  destruct (Z.eqb_spec n 2) as [->|?]; [destruct t; simpl; split; (done || lia) |].
  destruct t; simpl; split; (done || lia).
Qed.

Section Translation.
Context `{BL : BufferLib}.

(** The event built for a notification. *)
Lemma retype_update (u : Update.t IntermediateMessage.t) (err : option Error) :
  retype (Some u) err
  = Calls (Some (MailboxEvent.mk (Update.action u) (Update.instanceID u)
                   (match Update.instance u with
                    | Some instance =>
                        Some (UserMessage.mk (Update.instanceID u)
                                (IntermediateMessage.to instance)
                                (IntermediateMessage.from instance)
                                (Buffer_from_base64 (IntermediateMessage.body instance))
                                (Buffer_from_base64 (IntermediateMessage.signature instance))
                                (IntermediateMessage.created_at instance)
                                (Some (IntermediateMessage.read_at instance)))
                    | None => None
                    end))) None.
Proof. unfold retype. by destruct (Update.instance u). Qed.

(** C3 (as the code has it): translating a notification never ends in an
    error; the callback gets an event whose type is the notification's action
    tag, copied as it is, so the tags of [CREATE], [SAVE] and [DELETE] give
    events of these three types and any other tag is passed on as the type. *)
Theorem retype_copies_action_tag (u : Update.t IntermediateMessage.t) (err : option Error) :
  ∃ event,
    retype (Some u) err = Calls (Some event) None
    ∧ ¬ raises_error (retype (Some u) err)
    ∧ MailboxEvent.type event = Update.action u
    ∧ MailboxEvent.messageID event = Update.instanceID u
    ∧ MailboxEventType_of (MailboxEvent.type event) = MailboxEventType_of (Update.action u)
    ∧ ∀ t, MailboxEventType_of (MailboxEvent.type event) = Some t
           ↔ Update.action u = MailboxEventType_value t.
Proof.
  rewrite retype_update. eexists. split; [reflexivity |]. simpl.
  split; [tauto |]. repeat split; try apply MailboxEventType_of_Some.
Qed.

(** C4 (as the code has it): the event carries a message exactly when the
    notification carries an instance, whatever its action tag; so a
    notification without instance, as for a deletion, gives an event without
    message; and a message that is there has the event's [messageID] as its
    identifier. *)
Theorem retype_message_follows_instance (u : Update.t IntermediateMessage.t)
    (err : option Error) :
  ∃ event,
    retype (Some u) err = Calls (Some event) None
    ∧ (MailboxEvent.message event = None ↔ Update.instance u = None)
    ∧ (MailboxEvent.type event = MailboxEventType_value DELETE ∧ Update.instance u = None
       → MailboxEvent.message event = None)
    ∧ ∀ message, MailboxEvent.message event = Some message →
                 UserMessage.id message = MailboxEvent.messageID event.
Proof.
  rewrite retype_update. eexists. split; [reflexivity |]. simpl.
  destruct (Update.instance u) as [instance|].
  - split; [split; discriminate |]. split; [intros [_ ?]; discriminate |].
    by intros message [= <-].
  - split; [done |]. split; [done |]. discriminate.
Qed.

End Translation.

(** C3 (as stated) fails: a notification whose action tag is [7], outside the
    three, is translated without any error into an event of type [7]. *)
Lemma unrecognized_tag_is_passed_on :
  let u := Update.mk "inbox" "id-1" 7 None in
  MailboxEventType_of (Update.action u) = None
  ∧ retype (BL := Reference.Buffer) (Some u) None
    = Calls (Some (MailboxEvent.mk 7 "id-1" None)) None
  ∧ ¬ raises_error (retype (BL := Reference.Buffer) (Some u) None).
Proof. repeat split. intros []. Qed.

(** C4 (as stated) fails: a notification tagged [DELETE] that carries an
    instance gives an event of type [DELETE] with a message. *)
Lemma deleted_event_can_carry_message :
  let instance := IntermediateMessage.mk "id-1" "A" "B" "AAEC" "AAEC" (Num 1000) (Num 0) in
  let u := Update.mk "inbox" "id-1" (MailboxEventType_value DELETE) (Some instance) in
  ∃ event message,
    retype (BL := Reference.Buffer) (Some u) None = Calls (Some event) None
    ∧ MailboxEventType_of (MailboxEvent.type event) = Some DELETE
    ∧ MailboxEvent.message event = Some message.
Proof. eexists _, _. repeat split. Qed.

(** * Further properties of the context *)

(** The constructor, said with [holds]: instance and object are new, the
    instance is live over the three defaults, and what was live stays as it
    was. *)
Lemma new_wf_live σ host transport debug :
  ∃ c σ' l,
    Context.new host transport debug σ = Some (c, σ')
    ∧ contexts σ !! c = None
    ∧ objects σ !! l = None
    ∧ holds σ' c l
        (<["debug" := VBoolean (default false debug)]>
           (<["transport" := VTransport (default WebsocketTransport transport)]>
              (<["host" := VString (default Context.defaultHost host)]> ∅)))
    ∧ (∀ c0 l0 m0, holds σ c0 l0 m0 → holds σ' c0 l0 m0).
Proof.
  pose proof (new_spec σ host transport debug) as Hnew. simpl in Hnew.
  eexists _, _, _. split; [exact Hnew |].
  split; [apply not_elem_of_dom, is_fresh |].
  split; [apply fresh_object_None |].
  split; [split; simpl; apply lookup_insert_eq |].
  intros c0 l0 m0 [Hc0 Hl0]. split; simpl.
  - rewrite lookup_insert_ne; [done |]. exact (fresh_context_ne _ _ _ Hc0).
  - rewrite lookup_insert_ne; [done |]. exact (fresh_object_ne _ _ _ Hl0).
Qed.

(** ** Construction *)

(** X1: on any store, [new Context(host, transport, debug)] yields an
    instance and a key set that did not exist before; its [host],
    [transport] and [debug] read the arguments, or the defaults for absent
    ones; every other key reads what a plain empty object answers, which is
    [undefined] unless the key is ["__proto__"] or one of the keys of
    [Object.prototype]; and every context that was live keeps its key set
    and contents. *)
Theorem new_context_defaults σ host transport debug :
  ∃ c σ' l,
    Context.new host transport debug σ = Some (c, σ')
    ∧ contexts σ !! c = None
    ∧ objects σ !! l = None
    ∧ contexts σ' !! c = Some l
    ∧ Context.host c σ' = Some (VString (default Context.defaultHost host), σ')
    ∧ Context.transport c σ'
      = Some (VTransport (default WebsocketTransport transport), σ')
    ∧ Context.debug c σ' = Some (VBoolean (default false debug), σ')
    ∧ (∀ key, key ≠ "host" → key ≠ "transport" → key ≠ "debug" →
              Context.get c key σ' = Some (inherited key, σ')
              ∧ (key ≠ "__proto__" → key ∉ Object_prototype_keys →
                 Context.get c key σ' = Some (VUndefined, σ')))
    ∧ (∀ c0 l0 m0, holds σ c0 l0 m0 → holds σ' c0 l0 m0).
Proof.
  destruct (new_wf_live σ host transport debug) as (c & σ' & l & Hnew & Hc & Hl & H & Hkeep).
  exists c, σ', l. split; [exact Hnew |]. split; [done |]. split; [done |].
  split; [apply H |].
  unfold Context.host, Context.transport, Context.debug.
  rewrite !(get_holds _ _ _ _ _ H).
  split; [done |]. split; [done |]. split; [done |]. split; [| done].
  intros key H1 H2 H3. rewrite (get_holds _ _ _ _ _ H).
  assert (Hkey : property
                   (<["debug" := VBoolean (default false debug)]>
                      (<["transport" := VTransport (default WebsocketTransport transport)]>
                         (<["host" := VString (default Context.defaultHost host)]> ∅))) key
                 = inherited key).
  { unfold property. by rewrite !lookup_insert_ne, lookup_empty by done. }
  rewrite Hkey. split; [done |].
  intros Hproto Hkeys. unfold inherited. by rewrite !decide_False.
Qed.

(** X2: two contexts made by the constructor never share a key set: they
    are distinct instances over distinct objects, and a [set] through the
    first, whatever its key and value, leaves the second's key set as it
    was; under a key other than ["__proto__"] the first then reads the value
    set. *)
Theorem new_contexts_do_not_share σ h1 t1 d1 h2 t2 d2 (key : string) (value : Value) :
  ∃ c1 c2 l1 l2 m2 σ2 σ3,
    (let! a := Context.new h1 t1 d1 in
     let! b := Context.new h2 t2 d2 in
     ret (a, b)) σ = Some ((c1, c2), σ2)
    ∧ c1 ≠ c2 ∧ l1 ≠ l2
    ∧ Context.toJSON c1 σ2 = Some (l1, σ2)
    ∧ holds σ2 c2 l2 m2
    ∧ Context.set c1 key value σ2 = Some (Context.This c1, σ3)
    ∧ (key ≠ "__proto__" → Context.get c1 key σ3 = Some (value, σ3))
    ∧ holds σ3 c2 l2 m2.
Proof.
  destruct (new_wf_live σ h1 t1 d1) as (c1 & σ1 & l1 & Hnew1 & _ & _ & H1 & _).
  destruct (new_wf_live σ1 h2 t2 d2) as (c2 & σ2 & l2 & Hnew2 & Hfc & Hfl & H2 & Hkeep).
  pose proof (Hkeep _ _ _ H1) as H1'.
  assert (Hcne : c1 ≠ c2).
  { intros ->. destruct H1 as [Hc _]. congruence. }
  assert (Hlne : l1 ≠ l2).
  { intros ->. destruct H1 as [_ Hl]. congruence. }
  assert (Hset : ∃ σ3, Context.set c1 key value σ2 = Some (Context.This c1, σ3)
                       ∧ (key ≠ "__proto__" → Context.get c1 key σ3 = Some (value, σ3))
                       ∧ contexts σ3 = contexts σ2
                       ∧ objects σ3 !! l2 = objects σ2 !! l2).
  { destruct H1' as [Hc Hl].
    unfold Context.set, put_key, bind, read_context, put, ret. rewrite Hc, Hl.
    set (m1 := <["debug" := _]> _) in *.
    assert (Hplain : ∃ σ3, Some (Context.This c1, store_put σ2 l1 key value m1)
                           = Some (Context.This c1, σ3)
                           ∧ (key ≠ "__proto__" →
                              Context.get c1 key σ3 = Some (value, σ3))
                           ∧ contexts σ3 = contexts σ2
                           ∧ objects σ3 !! l2 = objects σ2 !! l2).
    { eexists. split; [reflexivity |]. split; [| split; [done |]].
      - intros _.
        rewrite (get_holds _ _ _ _ key (holds_store_put _ _ _ _ key value (conj Hc Hl))).
        by rewrite property_insert_eq.
      - simpl. by rewrite lookup_insert_ne. }
    destruct (m1 !! key); [exact Hplain |].
    destruct (decide (key = "__proto__")) as [->|]; [| exact Hplain].
    destruct (replaces_prototype value).
    - eexists. split; [reflexivity |]. split; [done |]. split; [done |].
      simpl. by rewrite lookup_delete_ne.
    - eexists. split; [reflexivity |]. by split. }
  destruct Hset as (σ3 & Hset & Hget & Hctx & Hobj).
  eexists c1, c2, l1, l2, _, σ2, σ3.
  split; [unfold bind, ret; by rewrite Hnew1, Hnew2 |].
  split; [done |]. split; [done |]. split; [by eapply toJSON_holds |].
  split; [exact H2 |]. split; [done |]. split; [done |].
  destruct H2 as [Hc2 Hl2]. split; [by rewrite Hctx | by rewrite Hobj].
Qed.

(** ** Raw accessors *)

(** X3: [set(key, value)] on a live context, for a key other than
    ["__proto__"], changes what [get] gives for that key only: another key
    reads as before (its own value, else what [Object.prototype] answers), a
    context over another object keeps its contents, and [get] itself leaves
    the store alone. *)
Theorem set_changes_one_key σ c l m (key : string) (value : Value) :
  holds σ c l m → key ≠ "__proto__" →
  ∃ σ',
    Context.set c key value σ = Some (Context.This c, σ')
    ∧ Context.get c key σ' = Some (value, σ')
    ∧ (∀ key', key' ≠ key →
               Context.get c key' σ' = Some (property m key', σ')
               ∧ Context.get c key' σ = Some (property m key', σ))
    ∧ (∀ c' l' m', l' ≠ l → holds σ c' l' m' → holds σ' c' l' m')
    ∧ contexts σ' = contexts σ.
Proof.
  intros H Hkey. exists (store_put σ l key value m).
  pose proof (holds_store_put _ _ _ _ key value H) as H'.
  split; [by apply set_holds |]. split.
  { rewrite (get_holds _ _ _ _ key H'). by rewrite property_insert_eq. }
  split; [| split; [| done]].
  - intros key' Hne. rewrite (get_holds _ _ _ _ key' H'), (get_holds _ _ _ _ key' H).
    by rewrite property_insert_ne.
  - intros c' l' m' Hne Hother.
    pose proof (holds_store_put_other _ _ _ _ key value _ _ _ H Hother) as Hview.
    by rewrite decide_False in Hview.
Qed.

Lemma store_put_twice σ l k1 v1 k2 v2 m :
  store_put (store_put σ l k1 v1 m) l k2 v2 (<[k1 := v1]> m)
  = mkStore (<[l := <[k2 := v2]> (<[k1 := v1]> m)]> (objects σ)) (contexts σ) (exotic σ).
Proof. unfold store_put; simpl. by rewrite insert_insert_eq. Qed.

Lemma set_twice σ c l m k1 v1 k2 v2 :
  holds σ c l m → k1 ≠ "__proto__" → k2 ≠ "__proto__" →
  (Context.set c k1 v1;; Context.set c k2 v2) σ
  = Some (Context.This c,
          mkStore (<[l := <[k2 := v2]> (<[k1 := v1]> m)]> (objects σ)) (contexts σ)
            (exotic σ)).
Proof.
  intros H Hk1 Hk2. unfold bind at 1. rewrite (set_holds _ _ _ _ k1 v1 H Hk1).
  rewrite (set_holds _ _ _ _ k2 v2 (holds_store_put _ _ _ _ k1 v1 H) Hk2).
  by rewrite store_put_twice.
Qed.

(** X4: on a live context and for keys other than ["__proto__"], two
    [set]s of the same key leave exactly the store the second alone would
    leave; and after two [set]s of different keys, in either order, [get]
    gives the same under every key: each of the two keys reads its value and
    every other key reads as before. *)
Theorem set_overwrites_and_commutes σ c l m (k1 k2 : string) (v1 v2 : Value) :
  holds σ c l m → k1 ≠ "__proto__" → k2 ≠ "__proto__" →
  (Context.set c k1 v1;; Context.set c k1 v2) σ = Context.set c k1 v2 σ
  ∧ (k1 ≠ k2 →
     ∃ σ12 σ21,
       (Context.set c k1 v1;; Context.set c k2 v2) σ = Some (Context.This c, σ12)
       ∧ (Context.set c k2 v2;; Context.set c k1 v1) σ = Some (Context.This c, σ21)
       ∧ ∀ key,
           Context.get c key σ12
           = Some (if decide (key = k1) then v1
                   else if decide (key = k2) then v2 else property m key, σ12)
           ∧ Context.get c key σ21
             = Some (if decide (key = k1) then v1
                     else if decide (key = k2) then v2 else property m key, σ21)).
Proof.
  intros H Hk1 Hk2. split.
  - rewrite (set_twice _ _ _ _ _ _ _ _ H Hk1 Hk1), (set_holds _ _ _ _ k1 v2 H Hk1).
    unfold store_put. by rewrite insert_insert_eq.
  - intros Hne. eexists _, _.
    split; [exact (set_twice _ _ _ _ _ _ _ _ H Hk1 Hk2) |].
    split; [exact (set_twice _ _ _ _ _ _ _ _ H Hk2 Hk1) |].
    destruct H as [Hc Hl]. intros key.
    split.
    + rewrite (get_holds _ _ l (<[k2 := v2]> (<[k1 := v1]> m)) key)
        by (split; simpl; [done | apply lookup_insert_eq]).
      f_equal. f_equal. unfold property.
      destruct (decide (key = k1)) as [->|Hn1].
      * by rewrite lookup_insert_ne, lookup_insert_eq.
      * destruct (decide (key = k2)) as [->|Hn2].
        -- by rewrite lookup_insert_eq.
        -- by rewrite !lookup_insert_ne.
    + rewrite (get_holds _ _ l (<[k1 := v1]> (<[k2 := v2]> m)) key)
        by (split; simpl; [done | apply lookup_insert_eq]).
      f_equal. f_equal. unfold property.
      destruct (decide (key = k1)) as [->|Hn1].
      * by rewrite lookup_insert_eq.
      * destruct (decide (key = k2)) as [->|Hn2].
        -- by rewrite lookup_insert_ne, lookup_insert_eq.
        -- by rewrite !lookup_insert_ne.
Qed.

(** X5: [toJSON()] is no snapshot: it changes nothing and hands out the
    live key set, so a property written on the returned object under a key
    other than ["__proto__"] is read by [get], and a later [set] of such a
    key shows in the object handed out earlier. *)
Theorem toJSON_is_live σ c l m (key : string) (value : Value) :
  holds σ c l m → key ≠ "__proto__" →
  ∃ σ1 σ2,
    Context.toJSON c σ = Some (l, σ)
    ∧ put l key value σ = Some (tt, σ1)
    ∧ Context.get c key σ1 = Some (value, σ1)
    ∧ Context.set c key value σ = Some (Context.This c, σ2)
    ∧ read l key σ2 = Some (value, σ2).
Proof.
  intros H Hkey. pose proof H as [Hc Hl].
  pose proof (holds_store_put _ _ _ _ key value H) as H'.
  exists (store_put σ l key value m), (store_put σ l key value m).
  split; [by eapply toJSON_holds |].
  split; [by apply put_plain |].
  split; [rewrite (get_holds _ _ _ _ key H'); by rewrite property_insert_eq |].
  split; [by apply set_holds |].
  unfold read. destruct H' as [_ ->]. by rewrite property_insert_eq.
Qed.

(** ** Fluent mutators, one by one *)

Lemma string_app_length (s t : string) :
  String.length (s ++ t) = (String.length s + String.length t)%nat.
Proof. induction s as [|a s IH]; simpl; [done | by rewrite IH]. Qed.

(** X6: on a live context, [withToken(token)] returns the receiver and
    stores the token behind the seven characters ["bearer "], whatever the
    token is: what [get('authorization')] reads is never the argument
    itself, and a token that already starts with ["bearer "] gets the prefix
    a second time; the key set's other properties stay as they were. *)
Theorem withToken_prefixes_bearer σ c l m (token : string) :
  holds σ c l m →
  ∃ σ' stored,
    Context.withToken c (Some token) σ = Some (Context.This c, σ')
    ∧ Context.get c "authorization" σ' = Some (VString stored, σ')
    ∧ stored = "bearer " ++ token
    ∧ String.length stored = (7 + String.length token)%nat
    ∧ stored ≠ token
    ∧ holds σ' c l (<["authorization" := VString stored]> m).
Proof.
  intros H. pose proof (holds_store_put _ _ _ _ "authorization"
                          (VString ("bearer " ++ token)) H) as H'.
  eexists _, _. split.
  { unfold Context.withToken, bind, ret.
    rewrite (put_key_holds _ _ _ _ _ _ H) by done; done. }
  split; [rewrite (get_holds _ _ _ _ _ H'); by rewrite property_insert_eq |].
  split; [done |]. split; [by rewrite string_app_length |]. split; [| done].
  intros Heq. apply (f_equal String.length) in Heq.
  rewrite string_app_length in Heq. simpl in Heq. lia.
Qed.

(** X7: on a live context, [withAPISig({sig, msg})] returns the receiver
    with both ["x-textile-api-sig"] and ["x-textile-api-sig-msg"] set, and
    the key set's other properties as they were; without an argument it sets
    neither and leaves the store as it was. *)
Theorem withAPISig_sets_both_or_neither σ c l m (value : Context.APISig) :
  holds σ c l m →
  (∃ σ',
     Context.withAPISig c (Some value) σ = Some (Context.This c, σ')
     ∧ Context.get c "x-textile-api-sig" σ' = Some (VString (Context.sig value), σ')
     ∧ Context.get c "x-textile-api-sig-msg" σ' = Some (VString (Context.msg value), σ')
     ∧ holds σ' c l
         (<["x-textile-api-sig" := VString (Context.sig value)]>
            (<["x-textile-api-sig-msg" := VString (Context.msg value)]> m)))
  ∧ Context.withAPISig c None σ = Some (Context.This c, σ).
Proof.
  intros H. split; [| done].
  pose proof (holds_store_put _ _ _ _ "x-textile-api-sig-msg"
                (VString (Context.msg value)) H) as H1.
  pose proof (holds_store_put _ _ _ _ "x-textile-api-sig"
                (VString (Context.sig value)) H1) as H2.
  eexists. split.
  { unfold Context.withAPISig, bind, ret.
    rewrite (put_key_holds _ _ _ _ _ _ H) by done.
    rewrite (put_key_holds _ _ _ _ _ _ H1) by done; done. }
  rewrite !(get_holds _ _ _ _ _ H2).
  split; [by rewrite property_insert_eq |].
  split; [by rewrite property_insert_ne, property_insert_eq |].
  done.
Qed.

Section FluentLaws.
Context `{TL : ThreadIDLib}.

(** The store a fluent call with a defined argument leaves. *)
Lemma invoke_store σ c l m call :
  holds σ c l m →
  argument_undefined call = false →
  ∃ r, invoke c call σ
       = Some (r, mkStore (<[l := write_all m (spec_sets call)]> (objects σ)) (contexts σ)
                    (exotic σ)).
Proof.
  intros H Hdef.
  destruct call as [[v|]|[v|]|[v|]|[v|]|[v|]|[v|]|[v|]]; simpl in *; try discriminate.
  all: unfold Context.withSession, Context.withThread, Context.withThreadName,
         Context.withOrg, Context.withToken, Context.withAPIKey, Context.withAPISig,
         bind, ret.
  all: rewrite (put_key_holds _ _ _ _ _ _ H) by done.
  all: try (eexists; reflexivity).
  pose proof (holds_store_put _ _ _ _ "x-textile-api-sig-msg" (VString (Context.msg v)) H) as H'.
  rewrite (put_key_holds _ _ _ _ _ _ H') by done. eexists. by rewrite store_put_twice.
Qed.

Lemma write_all_twice m ws : write_all (write_all m ws) ws = write_all m ws.
Proof.
  apply map_eq. intros key. rewrite !write_all_lookup.
  by destruct (spec_last key ws).
Qed.

(** X8: every single-key fluent call is idempotent on a live context:
    making the same call twice in a row returns what one call returns and
    leaves the same store. *)
Theorem fluent_call_idempotent σ c l m (call : Call) :
  holds σ c l m →
  (invoke c call;; invoke c call) σ = invoke c call σ.
Proof.
  intros H. destruct (argument_undefined call) eqn:Hu.
  - destruct (invoke_undefined_argument c call σ Hu) as [Hrun _].
    unfold bind. by rewrite Hrun, Hrun.
  - destruct (invoke_store _ _ _ _ call H Hu) as [r Hrun].
    unfold bind. rewrite Hrun.
    set (σ1 := mkStore _ _ _) in *.
    assert (H1 : holds σ1 c l (write_all m (spec_sets call))).
    { destruct H as [Hc _]. split; simpl; [done | apply lookup_insert_eq]. }
    destruct (invoke_store _ _ _ _ call H1 Hu) as [r' Hrun'].
    rewrite Hrun'. subst σ1; simpl.
    rewrite insert_insert_eq, write_all_twice.
    destruct (invoke_holds _ _ _ _ call H) as (r0 & σ0 & Hr0 & _ & _ & Hret).
    destruct (invoke_holds _ _ _ _ call H1) as (r1 & σ1 & Hr1 & _ & _ & Hret1).
    rewrite Hrun in Hr0. rewrite Hrun' in Hr1.
    injection Hr0 as -> _. injection Hr1 as -> _. by rewrite Hret, Hret1.
Qed.

End FluentLaws.

(** ** Adopting a key set *)

(** X9: [Context.fromJSON(json)] on a live object ignores the constructor's
    defaults: the new context's [host], [transport] and [debug] read what
    [json] holds under these keys, [undefined] when it holds nothing, and
    [json] itself is left with the contents it had. *)
Theorem fromJSON_drops_defaults σ json m :
  objects σ !! json = Some m →
  ∃ c' σ',
    Context.fromJSON json σ = Some (c', σ')
    ∧ contexts σ !! c' = None
    ∧ Context.toJSON c' σ' = Some (json, σ')
    ∧ objects σ' !! json = Some m
    ∧ Context.host c' σ' = Some (default VUndefined (m !! "host"), σ')
    ∧ Context.transport c' σ' = Some (default VUndefined (m !! "transport"), σ')
    ∧ Context.debug c' σ' = Some (default VUndefined (m !! "debug"), σ').
Proof.
  intros Hjson. destruct (fromJSON_spec σ json) as (l0 & m0 & Hrun & Hl0).
  simpl in Hrun. eexists _, _. split; [exact Hrun |].
  split; [apply not_elem_of_dom, is_fresh |].
  match type of Hrun with _ = Some (?c0, ?s) => set (c' := c0) in *; set (σ' := s) in * end.
  assert (H' : holds σ' c' json m).
  { split; simpl; [apply lookup_insert_eq |].
    rewrite lookup_insert_ne; [done |]. subst l0. exact (fresh_object_ne _ _ _ Hjson). }
  split; [by eapply toJSON_holds |]. split; [apply H' |].
  unfold Context.host, Context.transport, Context.debug.
  rewrite !(get_holds _ _ _ _ _ H'). unfold property.
  by destruct (m !! "host"), (m !! "transport"), (m !! "debug").
Qed.

(** X10: the context [Context.fromJSON(ctx.toJSON())] gives shares its key
    set with [ctx]: after a [set] through either of the two both read the
    same under every key, and what was stored under a key other than
    ["__proto__"] is read through the other. *)
Theorem fromJSON_shares_key_set σ c l m (key : string) (value : Value) :
  holds σ c l m →
  ∃ c' σ1,
    (let! json := Context.toJSON c in Context.fromJSON json) σ = Some (c', σ1)
    ∧ c' ≠ c
    ∧ (∃ σ2, Context.set c' key value σ1 = Some (Context.This c', σ2)
             ∧ (key ≠ "__proto__" → Context.get c key σ2 = Some (value, σ2))
             ∧ ∀ key', Context.get c key' σ2 = Context.get c' key' σ2)
    ∧ (∃ σ2, Context.set c key value σ1 = Some (Context.This c, σ2)
             ∧ (key ≠ "__proto__" → Context.get c' key σ2 = Some (value, σ2))
             ∧ ∀ key', Context.get c' key' σ2 = Context.get c key' σ2).
Proof.
  intros H. pose proof H as [Hc Hl].
  destruct (fromJSON_spec σ l) as (l0 & m0 & Hrun & Hl0). simpl in Hrun.
  match type of Hrun with _ = Some (?c0, ?s) => set (c' := c0) in *; set (σ1 := s) in * end.
  assert (Hne : c' ≠ c) by exact (fresh_context_ne _ _ _ Hc).
  assert (Hl1 : objects σ1 !! l = Some m).
  { simpl. rewrite lookup_insert_ne; [done |]. subst l0. exact (fresh_object_ne _ _ _ Hl). }
  assert (H' : holds σ1 c' l m) by (split; [apply lookup_insert_eq | done]).
  assert (H1 : holds σ1 c l m).
  { split; [| done]. simpl. by rewrite lookup_insert_ne. }
  exists c', σ1. split; [unfold bind; by rewrite (toJSON_holds _ _ _ _ H), Hrun |].
  split; [done |]. split.
  - exact (set_seen_through_alias _ _ _ _ _ key value H1 H').
  - exact (set_seen_through_alias _ _ _ _ _ key value H' H1).
Qed.

(** X11: [withContext()] without argument, and [ctx.withContext(ctx)] on a
    live context, return the receiver and leave the store exactly as it was;
    and [a.withContext(b)] rebinds [a] only: every other context keeps its
    key set, and the object [a] used before keeps its contents. *)
Theorem withContext_rebinds_receiver_only σ a b la ma lb mb :
  holds σ a la ma → holds σ b lb mb →
  Context.withContext a None σ = Some (Context.This a, σ)
  ∧ Context.withContext a (Some a) σ = Some (Context.This a, σ)
  ∧ ∃ σ',
      Context.withContext a (Some b) σ = Some (Context.This a, σ')
      ∧ objects σ' !! la = Some ma
      ∧ ∀ d ld md, d ≠ a → holds σ d ld md → holds σ' d ld md.
Proof.
  intros [Ha Hla] [Hb Hlb]. split; [done |]. split.
  - unfold Context.withContext, bind, read_context, assign_context, ret.
    rewrite Ha; simpl. rewrite Ha. rewrite (insert_id _ _ _ Ha). by destruct σ.
  - eexists. split.
    { unfold Context.withContext, bind, read_context, assign_context, ret.
      by rewrite Hb, Ha. }
    split; [done |].
    intros d ld md Hne [Hd Hld]. split; [| done]. simpl. by rewrite lookup_insert_ne.
Qed.

(** ** No reference ever dangles *)




Section Programs.
Context `{TL : ThreadIDLib}.





(** Without that condition the statement fails: [set('__proto__', f)] for a
    function [f] runs, and the key set it leaves is no plain object any
    more. *)
Lemma prototype_replacement_leaves_plain_objects :
  ∃ σ',
    run (TL := TL) (op_set 1%positive "__proto__" (VTransport WebsocketTransport))
      Reference.fresh_store = Some (tt, σ')
    ∧ objects σ' !! 1%positive = None
    ∧ exotic σ' !! 1%positive = Some (VTransport WebsocketTransport, Reference.fresh_keys)
    ∧ ¬ wf σ'.
Proof.
  eexists. split; [reflexivity |]. split; [reflexivity |]. split; [reflexivity |].
  intros Hwf. destruct (Hwf 1%positive 1%positive eq_refl) as [m Hm]. discriminate.
Qed.

End Programs.

(** * Further properties of the mailbox API *)

(** ** Failures of the transport *)



(** ** Thread lookups *)

Section Threads.
Context `{TL : ThreadIDLib} `{BL : BufferLib}.

Lemma mapThreads_inr (l : list GetThreadReply.t) : ∀ objs,
  mapThreads l = inr objs
  ↔ Forall2 (λ thread obj,
       decodeThreadID (GetThreadReply.id thread) = inr (GetThreadReplyObj.id obj)
       ∧ GetThreadReplyObj.name obj = GetThreadReply.name thread
       ∧ GetThreadReplyObj.isDB obj = GetThreadReply.isdb thread) l objs.
Proof.
  induction l as [|thread l IH]; intros objs; simpl.
  - split; [intros [= <-]; constructor | intros Hall; by inversion Hall].
  - destruct (decodeThreadID (GetThreadReply.id thread)) as [e|id] eqn:Hid.
    + split; [discriminate |]. intros Hall. inversion Hall as [|? o ? os [? _]]; subst.
      congruence.
    + destruct (mapThreads l) as [e|rest] eqn:Hrest.
      * split; [discriminate |]. intros Hall.
        inversion Hall as [|? o ? os _ Htail]; subst.
        apply IH in Htail. discriminate.
      * split.
        -- intros [= <-]. constructor; [by simpl | by apply IH].
        -- intros Hall. inversion Hall as [|? o ? os (Ho & Hn & Hd) Htail]; subst.
           apply IH in Htail. injection Htail as <-.
           destruct o as [isDB name id']; simpl in *. congruence.
Qed.

Lemma mapThreads_inl (l : list GetThreadReply.t) : ∀ e,
  mapThreads l = inl e
  ↔ ∃ pre thread post,
      l = (pre ++ thread :: post)%list
      ∧ Forall (λ t, ∃ id, decodeThreadID (GetThreadReply.id t) = inr id) pre
      ∧ decodeThreadID (GetThreadReply.id thread) = inl e.
Proof.
  induction l as [|thread l IH]; intros e; simpl.
  - split; [discriminate |]. intros (pre & t & post & Hl & _). by destruct pre.
  - destruct (decodeThreadID (GetThreadReply.id thread)) as [e'|id] eqn:Hid.
    + split.
      * intros [= <-]. by exists [], thread, l.
      * intros (pre & t & post & Hl & Hpre & Ht). destruct pre as [|t' pre]; simpl in Hl.
        -- injection Hl as <- <-. congruence.
        -- injection Hl as <- ->. apply Forall_cons in Hpre as [[id' Hid'] _]. congruence.
    + destruct (mapThreads l) as [e'|rest] eqn:Hrest.
      * split.
        -- intros [= <-]. destruct (proj1 (IH e') eq_refl) as (pre & t & post & -> & Hpre & Ht).
           exists (thread :: pre), t, post. split; [done |]. split; [| done].
           constructor; eauto.
        -- intros (pre & t & post & Hl & Hpre & Ht). destruct pre as [|t' pre]; simpl in Hl.
           ++ injection Hl as <- <-. congruence.
           ++ injection Hl as <- ->. apply Forall_cons in Hpre as [_ Hpre].
              apply IH. by exists pre, t, post.
      * split; [discriminate |].
        intros (pre & t & post & Hl & Hpre & Ht). destruct pre as [|t' pre]; simpl in Hl.
        -- injection Hl as <- <-. congruence.
        -- injection Hl as <- ->. apply Forall_cons in Hpre as [_ Hpre].
           assert (inr rest = inl e) as He by (apply IH; by exists pre, t, post).
           discriminate.
Qed.

(** X14: when the transport answers [listThreads] with a list of threads,
    the call resolves exactly to the list of the same length and order in
    which every entry keeps the thread's name and database flag and carries
    the [toString()] of the identifier decoded from its base64 id; and it is
    rejected exactly when some id does not decode, with the error of the
    first such entry. *)
Theorem listThreads_decodes_every_id (api : GrpcConnection) (ctx : option positive)
    (res : ListThreadsReply.t) :
  unary api ListThreads ListThreadsRequest.new ctx = Resolved res →
  (∀ objs,
     listThreads api ctx = Resolved objs
     ↔ Forall2 (λ thread obj,
          decodeThreadID (GetThreadReply.id thread) = inr (GetThreadReplyObj.id obj)
          ∧ GetThreadReplyObj.name obj = GetThreadReply.name thread
          ∧ GetThreadReplyObj.isDB obj = GetThreadReply.isdb thread)
         (ListThreadsReply.getListList res) objs)
  ∧ (∀ e,
       listThreads api ctx = Rejected e
       ↔ ∃ pre thread post,
           ListThreadsReply.getListList res = (pre ++ thread :: post)%list
           ∧ Forall (λ t, ∃ id, decodeThreadID (GetThreadReply.id t) = inr id) pre
           ∧ decodeThreadID (GetThreadReply.id thread) = inl e).
Proof.
  intros Hres. unfold listThreads. rewrite Hres. simpl.
  split.
  - intros objs. rewrite <- mapThreads_inr.
    destruct (mapThreads (ListThreadsReply.getListList res)); simpl;
      split; congruence.
  - intros e. rewrite <- mapThreads_inl.
    destruct (mapThreads (ListThreadsReply.getListList res)); simpl;
      split; congruence.
Qed.

(** X15: [getMailboxID] looks up the thread named ["hubmail"] and decodes
    its id the way [setupMailbox] decodes the mailbox id: when the two
    replies carry the same base64 text, both calls have the same outcome,
    the same string or the same decoding error. *)
Theorem getMailboxID_agrees_with_setupMailbox (api : GrpcConnection)
    (ctx : option positive) (thread : GetThreadReply.t) (res : SetupMailboxReply.t) :
  unary api GetThread (GetThreadRequest.mk (Some "hubmail")) ctx = Resolved thread →
  unary api SetupMailbox SetupMailboxRequest.new ctx = Resolved res →
  GetThreadReply.id thread = SetupMailboxReply.getMailboxid_asB64 res →
  getMailboxID api ctx = setupMailbox api ctx.
Proof.
  intros Hthread Hres Hid. unfold getMailboxID, getThread, setupMailbox.
  change (GetThreadRequest.setName MailConfig.ThreadName GetThreadRequest.new)
    with (GetThreadRequest.mk (Some "hubmail")).
  rewrite Hthread, Hres. simpl. rewrite Hid.
  by destruct (decodeThreadID (SetupMailboxReply.getMailboxid_asB64 res)).
Qed.

End Threads.

(** ** Listed messages *)

Lemma convertMessageObj_lookup (inputs : list Message.t) (i : nat) (input : Message.t) :
  inputs !! i = Some input →
  ∃ m, map convertMessageObj inputs !! i = Some m
       ∧ UserMessage.id m = Message.getId input
       ∧ UserMessage.from m = Message.getFrom input
       ∧ UserMessage.to m = Message.getTo input
       ∧ UserMessage.body m = Message.getBody_asU8 input
       ∧ UserMessage.signature m = Message.getSignature_asU8 input
       ∧ UserMessage.createdAt m = Message.getCreatedat input
       ∧ UserMessage.readAt m = Some (Message.getReadat input).
Proof.
  intros Hi. exists (convertMessageObj input). split; [| done].
  change (map convertMessageObj inputs) with (convertMessageObj <$> inputs).
  by rewrite list_lookup_fmap, Hi.
Qed.

(** X16: when the transport answers a listing with messages, both listing
    functions resolve to a list of the same length in the server's order,
    the message at each position being the server's at that position, field
    by field; its [readAt] is always present, also when the server's value
    is [0] for a message never read. *)
Theorem listed_messages_keep_order (api : GrpcConnection)
    (iopts : option InboxListOptions.t) (sopts : option SentboxListOptions.t)
    (ctx : option positive) (res : ListMessagesReply.t) :
  (unary api ListInboxMessages (listInboxMessagesRequest iopts) ctx = Resolved res →
   ∃ msgs,
     listInboxMessages api iopts ctx = Resolved msgs
     ∧ length msgs = length (ListMessagesReply.getMessagesList res)
     ∧ ∀ i input, ListMessagesReply.getMessagesList res !! i = Some input →
         ∃ m, msgs !! i = Some m
              ∧ UserMessage.id m = Message.getId input
              ∧ UserMessage.from m = Message.getFrom input
              ∧ UserMessage.to m = Message.getTo input
              ∧ UserMessage.body m = Message.getBody_asU8 input
              ∧ UserMessage.signature m = Message.getSignature_asU8 input
              ∧ UserMessage.createdAt m = Message.getCreatedat input
              ∧ UserMessage.readAt m = Some (Message.getReadat input))
  ∧ (unary api ListSentboxMessages (listSentboxMessagesRequest sopts) ctx = Resolved res →
     ∃ msgs,
       listSentboxMessages api sopts ctx = Resolved msgs
       ∧ length msgs = length (ListMessagesReply.getMessagesList res)
       ∧ ∀ i input, ListMessagesReply.getMessagesList res !! i = Some input →
           ∃ m, msgs !! i = Some m
                ∧ UserMessage.id m = Message.getId input
                ∧ UserMessage.from m = Message.getFrom input
                ∧ UserMessage.to m = Message.getTo input
                ∧ UserMessage.body m = Message.getBody_asU8 input
                ∧ UserMessage.signature m = Message.getSignature_asU8 input
                ∧ UserMessage.createdAt m = Message.getCreatedat input
                ∧ UserMessage.readAt m = Some (Message.getReadat input)).
Proof.
  split; intros Hres; [unfold listInboxMessages | unfold listSentboxMessages];
    rewrite Hres; simpl; eexists; (split; [reflexivity |]);
    (split; [apply length_map | apply convertMessageObj_lookup]).
Qed.

Lemma listed_messages_keep_order_witness :
  ∃ msgs m,
    listInboxMessages ReferenceHub.hub (Some (InboxListOptions.mk None None None (Some UNREAD)))
      None = Resolved msgs
    ∧ length msgs = 1%nat
    ∧ msgs !! 0%nat = Some m
    ∧ UserMessage.id m = "m1"
    ∧ UserMessage.readAt m = Some (Num 0).
Proof.
  destruct (listed_messages_keep_order ReferenceHub.hub
              (Some (InboxListOptions.mk None None None (Some UNREAD))) None None
              (ListMessagesReply.mk [ReferenceHub.message]))
    as [Hinbox _].
  destruct Hinbox as (msgs & Hrun & Hlen & Hat); [reflexivity |].
  destruct (Hat 0%nat ReferenceHub.message eq_refl) as (m & Hm & Hid & _ & _ & _ & _ & _ & Hread).
  exists msgs, m. repeat split; assumption.
Defined.

(** ** The listener *)

Section Listener.
Context `{TL : ThreadIDLib} `{BL : BufferLib}.

(** X17: the function run on a notification hands the callback an error
    only when it was given no update: then the callback gets exactly
    [(undefined, err)]; given an update, the callback gets an event and no
    error, so an error that arrives together with an update is dropped. *)
Theorem retype_forwards_error_only_without_update
    (reply : option (Update.t IntermediateMessage.t)) (err : option Error) :
  (raises_error (retype reply err) ↔ reply = None ∧ is_Some err)
  ∧ retype None err = Calls None err
  ∧ ∀ u e, ∃ event, retype (Some u) (Some e) = Calls (Some event) None.
Proof.
  split; [| split; [done |]].
  - destruct reply as [u|]; simpl.
    + split; [intros [] | intros [? _]; discriminate].
    + destruct err as [e|]; simpl.
      * split; [intros _; split; [done | eauto] | done].
      * split; [done | intros [_ [? ?]]; discriminate].
  - intros u e. rewrite retype_update. eauto.
Qed.

(** X18: [watchMailbox] fails exactly when its [id] is no thread
    identifier, with the parser's error; otherwise it listens on that
    thread, with the given context or else the connection's, on the one
    collection ["inbox"] or ["sentbox"] its [box] names, and with the same
    translation function for both boxes. *)
Theorem watchMailbox_subscription (api : GrpcConnection) (id : string) (box : Box)
    (ctx : option positive) :
  (∀ e, watchMailbox api id box ctx = inl e ↔ ThreadID_fromString id = inl e)
  ∧ (∀ listen,
       watchMailbox api id box ctx = inr listen →
       ThreadID_fromString id = inr (listen_thread listen)
       ∧ listen_context listen = default (context api) ctx
       ∧ listen_filters listen = [match box with inbox => "inbox" | sentbox => "sentbox" end]
       ∧ listen_handler listen = retype).
Proof.
  unfold watchMailbox. destruct (ThreadID_fromString id) as [e'|tid]; split.
  - intros e. split; congruence.
  - discriminate.
  - intros e. split; discriminate.
  - intros listen [= <-]. simpl. by destruct box.
Qed.

End Listener.

(** * The further properties on concrete inputs *)

Lemma two_contexts_second :
  holds Reference.two_contexts 2%positive 2%positive
    (<["x-textile-session" := VString "s2"]> Reference.fresh_keys).
Proof. split; reflexivity. Qed.

Lemma two_contexts_first :
  holds Reference.two_contexts 1%positive 1%positive Reference.fresh_keys.
Proof. split; reflexivity. Qed.

Lemma set_changes_one_key_witness :
  ∃ σ',
    Context.set 2%positive "toString" (VString "org") Reference.two_contexts
    = Some (Context.This 2%positive, σ')
    ∧ Context.get 2%positive "toString" σ' = Some (VString "org", σ')
    ∧ Context.get 2%positive "x-textile-session" σ' = Some (VString "s2", σ')
    ∧ Context.get 2%positive "valueOf" σ' = Some (VBuiltin "valueOf", σ')
    ∧ holds σ' 1%positive 1%positive Reference.fresh_keys.
Proof.
  destruct (set_changes_one_key Reference.two_contexts 2%positive 2%positive
              (<["x-textile-session" := VString "s2"]> Reference.fresh_keys)
              "toString" (VString "org"))
    as (σ' & Hset & Hget & Hother & Hframe & _).
  - split; reflexivity.
  - discriminate.
  - exists σ'. split; [exact Hset |]. split; [exact Hget |]. split; [| split].
    + apply (Hother "x-textile-session"). discriminate.
    + apply (Hother "valueOf"). discriminate.
    + apply Hframe; [discriminate | split; reflexivity].
Defined.

Lemma set_overwrites_and_commutes_witness :
  (Context.set 1%positive "a" (VString "x");; Context.set 1%positive "a" (VString "y"))
    Reference.fresh_store
  = Context.set 1%positive "a" (VString "y") Reference.fresh_store
  ∧ ∃ σ12 σ21,
      (Context.set 1%positive "a" (VString "x");; Context.set 1%positive "b" (VString "y"))
        Reference.fresh_store = Some (Context.This 1%positive, σ12)
      ∧ (Context.set 1%positive "b" (VString "y");; Context.set 1%positive "a" (VString "x"))
          Reference.fresh_store = Some (Context.This 1%positive, σ21)
      ∧ Context.get 1%positive "b" σ12 = Some (VString "y", σ12)
      ∧ Context.get 1%positive "b" σ21 = Some (VString "y", σ21).
Proof.
  split.
  - apply (set_overwrites_and_commutes Reference.fresh_store 1%positive 1%positive
             Reference.fresh_keys "a" "a" (VString "x") (VString "y"));
      [split; reflexivity | discriminate | discriminate].
  - destruct (set_overwrites_and_commutes Reference.fresh_store 1%positive 1%positive
                Reference.fresh_keys "a" "b" (VString "x") (VString "y"))
      as [_ Hcomm]; [split; reflexivity | discriminate | discriminate |].
    destruct Hcomm as (σ12 & σ21 & H12 & H21 & Hget); [discriminate |].
    exists σ12, σ21. split; [exact H12 |]. split; [exact H21 |].
    split; [exact (proj1 (Hget "b")) | exact (proj2 (Hget "b"))].
Defined.

Lemma toJSON_is_live_witness :
  ∃ σ1,
    Context.toJSON 1%positive Reference.fresh_store = Some (1%positive, Reference.fresh_store)
    ∧ put 1%positive "extra" (VNumber (Num 3)) Reference.fresh_store = Some (tt, σ1)
    ∧ Context.get 1%positive "extra" σ1 = Some (VNumber (Num 3), σ1).
Proof.
  destruct (toJSON_is_live Reference.fresh_store 1%positive 1%positive Reference.fresh_keys
              "extra" (VNumber (Num 3)))
    as (σ1 & _ & Hjson & Hput & Hget & _).
  - split; reflexivity.
  - discriminate.
  - exists σ1. split; [exact Hjson |]. split; [exact Hput | exact Hget].
Defined.

Lemma withToken_prefixes_bearer_witness :
  ∃ σ',
    Context.withToken 1%positive (Some "bearer abc") Reference.fresh_store
    = Some (Context.This 1%positive, σ')
    ∧ Context.get 1%positive "authorization" σ' = Some (VString "bearer bearer abc", σ').
Proof.
  destruct (withToken_prefixes_bearer Reference.fresh_store 1%positive 1%positive
              Reference.fresh_keys "bearer abc")
    as (σ' & stored & Hrun & Hget & -> & _).
  - split; reflexivity.
  - exists σ'. split; [exact Hrun | exact Hget].
Defined.

Lemma withAPISig_sets_both_or_neither_witness :
  ∃ σ',
    Context.withAPISig 1%positive (Some (Context.mkAPISig "s" "m")) Reference.fresh_store
    = Some (Context.This 1%positive, σ')
    ∧ Context.get 1%positive "x-textile-api-sig" σ' = Some (VString "s", σ')
    ∧ Context.get 1%positive "x-textile-api-sig-msg" σ' = Some (VString "m", σ').
Proof.
  destruct (withAPISig_sets_both_or_neither Reference.fresh_store 1%positive 1%positive
              Reference.fresh_keys (Context.mkAPISig "s" "m"))
    as [(σ' & Hrun & Hsig & Hmsg & _) _].
  - split; reflexivity.
  - exists σ'. split; [exact Hrun |]. split; [exact Hsig | exact Hmsg].
Defined.

Lemma fluent_call_idempotent_witness :
  let call := @call_withThread Reference.Threads (Some ["001"%byte; "085"%byte]) in
  (invoke 1%positive call;; invoke 1%positive call) Reference.fresh_store
  = invoke 1%positive call Reference.fresh_store.
Proof.
  apply (fluent_call_idempotent (TL := Reference.Threads) Reference.fresh_store 1%positive
           1%positive Reference.fresh_keys).
  split; reflexivity.
Defined.

Lemma fromJSON_drops_defaults_witness :
  ∃ c' σ',
    Context.fromJSON 1%positive (mkStore {[ 1%positive := ∅ ]} ∅ ∅) = Some (c', σ')
    ∧ Context.host c' σ' = Some (VUndefined, σ')
    ∧ Context.debug c' σ' = Some (VUndefined, σ').
Proof.
  destruct (fromJSON_drops_defaults (mkStore {[ 1%positive := ∅ ]} ∅ ∅) 1%positive ∅)
    as (c' & σ' & Hrun & _ & _ & _ & Hhost & _ & Hdebug).
  - reflexivity.
  - exists c', σ'. split; [exact Hrun |]. split; [exact Hhost | exact Hdebug].
Defined.

Lemma fromJSON_shares_key_set_witness :
  ∃ c' σ1 σ2,
    (let! json := Context.toJSON 1%positive in Context.fromJSON json) Reference.fresh_store
    = Some (c', σ1)
    ∧ Context.set c' "x-textile-org" (VString "org") σ1 = Some (Context.This c', σ2)
    ∧ Context.get 1%positive "x-textile-org" σ2 = Some (VString "org", σ2).
Proof.
  destruct (fromJSON_shares_key_set Reference.fresh_store 1%positive 1%positive
              Reference.fresh_keys "x-textile-org" (VString "org"))
    as (c' & σ1 & Hrun & _ & (σ2 & Hset & Hget & _) & _).
  - split; reflexivity.
  - exists c', σ1, σ2. split; [exact Hrun |]. split; [exact Hset |].
    apply Hget. discriminate.
Defined.

Lemma withContext_rebinds_receiver_only_witness :
  Context.withContext 1%positive (Some 1%positive) Reference.two_contexts
  = Some (Context.This 1%positive, Reference.two_contexts)
  ∧ ∃ σ',
      Context.withContext 1%positive (Some 2%positive) Reference.two_contexts
      = Some (Context.This 1%positive, σ')
      ∧ objects σ' !! 1%positive = Some Reference.fresh_keys.
Proof.
  destruct (withContext_rebinds_receiver_only Reference.two_contexts 1%positive 2%positive
              1%positive Reference.fresh_keys 2%positive
              (<["x-textile-session" := VString "s2"]> Reference.fresh_keys))
    as (_ & Hself & σ' & Hrun & Hold & _).
  - split; reflexivity.
  - split; reflexivity.
  - split; [exact Hself |]. exists σ'. split; [exact Hrun | exact Hold].
Defined.


Lemma listThreads_decodes_every_id_witness :
  listThreads (TL := Reference.Threads) (BL := Reference.Buffer) ReferenceHub.hub None
  = Resolved [GetThreadReplyObj.mk true "hubmail" "b000102";
              GetThreadReplyObj.mk false "other" "b030405"].
Proof.
  destruct (listThreads_decodes_every_id (TL := Reference.Threads) (BL := Reference.Buffer)
              ReferenceHub.hub None
              (ListThreadsReply.mk
                 [GetThreadReply.mk true "hubmail" "AAEC";
                  GetThreadReply.mk false "other" "AwQF"]))
    as [Hok _].
  - reflexivity.
  - apply Hok. repeat constructor.
Defined.

Lemma getMailboxID_agrees_with_setupMailbox_witness :
  getMailboxID (TL := Reference.Threads) (BL := Reference.Buffer) ReferenceHub.hub None
  = setupMailbox (TL := Reference.Threads) (BL := Reference.Buffer) ReferenceHub.hub None.
Proof.
  apply (getMailboxID_agrees_with_setupMailbox (TL := Reference.Threads)
           (BL := Reference.Buffer) ReferenceHub.hub None
           (GetThreadReply.mk true "hubmail" "AAEC") (SetupMailboxReply.mk "AAEC"));
    reflexivity.
Defined.

(** X19: the message of an event is built from the update's [instanceID]
    and from the payload's sender, recipient, times and base64-decoded body
    and signature; the payload's own [_id] and the update's collection name
    play no part: updates that differ only in these give the same event. *)
Theorem retype_ignores_payload_id `{BL : BufferLib}
    (collection collection' instanceID : string) (action : Z)
    (_id _id' from to body signature : string) (created_at read_at : number)
    (err : option Error) :
  let payload := IntermediateMessage.mk _id from to body signature created_at read_at in
  let payload' := IntermediateMessage.mk _id' from to body signature created_at read_at in
  retype (Some (Update.mk collection instanceID action (Some payload))) err
  = retype (Some (Update.mk collection' instanceID action (Some payload'))) err
  ∧ retype (Some (Update.mk collection instanceID action (Some payload))) err
    = Calls (Some (MailboxEvent.mk action instanceID
                     (Some (UserMessage.mk instanceID to from
                              (Buffer_from_base64 body) (Buffer_from_base64 signature)
                              created_at (Some read_at))))) None.
Proof. split; reflexivity. Qed.
